(** * arcade.application: the fixed-step scheduler and the view/handler
      binding of [Window], as a shallow embedding.

    Python floats are IEEE binary64 numbers and are modelled by Rocq's
    primitive floats, so [+], [-] and [>=] round and compare exactly as the
    interpreter does.  Mutable objects live in an explicit [World]: the
    window, the store of [View] objects, pyglet's clock schedule, the global
    current-window reference and a log of the externally visible operations
    in the order in which the code performs them.

    The module [DocExperiment] embeds util/doc_experiment.py, the script
    that scans the package for its modules, over the file system as the
    script sees it. *)

From Stdlib Require Import Floats ZArith Lia.
From stdpp Require Import gmap strings list fin_maps.

Local Open Scope Z_scope.

(** ** Python-level outcomes *)

Inductive exn : Set :=
| TypeError
| NoOpenGLException.

(** A call either returns or raises; both carry the state of the world at
    that point, so that "no mutation before the raise" can be stated. *)
Inductive outcome (S : Type) : Type :=
| Ok (s : S)
| Raise (e : exn) (s : S).
Arguments Ok {S} s.
Arguments Raise {S} e s.

(** ** arcade.clock *)

Module Clock.

(** Modelled from the spec: [arcade.clock.Clock] (arcade/clock.py is not
    among the sources).  Section 3: [time], [delta_time], mutated only by
    [tick(dt)]: [time += dt; delta_time = dt]. *)
Record Clock : Set := mkClock {
  time : float;
  delta_time : float
}.

Definition init : Clock := {| time := 0%float; delta_time := 0%float |}.

Definition tick (dt : float) (c : Clock) : Clock :=
  {| time := (time c + dt)%float; delta_time := dt |}.

End Clock.

Module FixedClock.

(** Modelled from the spec: [arcade.clock.FixedClock] (arcade/clock.py is
    not among the sources).  Section 3: a constant [fixed_rate] and a
    fixed-step-domain [time]; [tick(fixed_rate)] advances [time] by
    [fixed_rate].  Section 4.2: [accumulated] "is tracked as the gap
    between global time and fixed time", the global clock being the
    sibling the fixed clock holds a reference to.  The window owns both
    clocks, so the sibling is passed in where it is read. *)
Record FixedClock : Set := mkFixedClock {
  time : float;
  fixed_rate : float
}.

Definition init (fixed_tick_rate : float) : FixedClock :=
  {| time := 0%float; fixed_rate := fixed_tick_rate |}.

Definition tick (dt : float) (c : FixedClock) : FixedClock :=
  {| time := (time c + dt)%float; fixed_rate := fixed_rate c |}.

Definition accumulated (sibling : Clock.Clock) (c : FixedClock) : float :=
  (Clock.time sibling - time c)%float.

End FixedClock.

(** ** Objects and handlers *)

Abbreviation ViewId := nat.
Abbreviation WindowId := nat.

(** The receiver of a bound method. *)
Inductive Owner : Set :=
| OWindow                  (* the window itself *)
| OKeyboard                (* window.keyboard, a KeyStateHandler *)
| OMouse                   (* window.mouse, a MouseStateHandler *)
| OView (v : ViewId)       (* a View object *)
| OSections (v : ViewId).  (* the SectionManager of a View object *)

#[global] Instance Owner_eq_dec : EqDecision Owner.
Proof. solve_decision. Defined.

(** What [getattr(obj, name, None)] yields: a bound method or [None]. *)
Inductive Handler : Set :=
| HBound (o : Owner) (attr : string)
| HNone.

#[global] Instance Handler_eq_dec : EqDecision Handler.
Proof. solve_decision. Defined.

Definition handler_owner (h : Handler) : option Owner :=
  match h with
  | HBound o _ => Some o
  | HNone => None
  end.

(** The callables handed to [pyglet.clock.schedule_interval]. *)
Inductive Callback : Set :=
| DispatchUpdates (w : WindowId)   (* window._dispatch_updates *)
| RedrawWindows.                   (* pyglet.app.event_loop._redraw_windows *)

#[global] Instance Callback_eq_dec : EqDecision Callback.
Proof. solve_decision. Defined.

(** The operations a call performs on its collaborators, logged in program
    order. *)
Inductive Action : Type :=
| Dispatch (event_type : string) (delta : float)   (* self.dispatch_event(name, delta) *)
| Call (o : Owner) (method : string)               (* a lifecycle hook called directly *)
| PushHandlers (frame : gmap string Handler)       (* self.push_handlers with the frame as keywords *)
| RemoveHandlers (o : Owner)                       (* self.remove_handlers(obj) *)
| SetCurrentView (v : option ViewId)               (* self._current_view = ... *)
| BindWindow (v : ViewId) (w : WindowId)           (* view.window = self *)
| ScreenUse                                        (* self._ctx.screen.use() *)
| SetViewport (vp : Z * Z * Z * Z).                (* self.viewport = ... *)

(** ** Views *)

(** Modelled from the spec: [arcade.sections.SectionManager]
    (arcade/sections is not among the sources).  Sections 2 and 4.4: an
    overlay of a view that claims a set of event names.  Only what
    [Window.show_view] and [View.has_sections] read is kept. *)
Record SectionManager : Type := mkSectionManager {
  sm_has_sections : bool;
  managed_events : gset string;
  sm_attrs : gset string   (* the names [getattr(manager, name, None)] finds *)
}.

Record View : Type := mkView {
  window : option WindowId;
  key : option Z;
  _section_manager : option SectionManager;
  (* names defined by a subclass or on the instance, beyond [View]'s own *)
  extra_attrs : gset string
}.

(** The event methods class [View] defines itself (application.py,
    lines 1154-1310). *)
Definition View_methods : list string :=
  [ "on_update"; "on_fixed_update"; "on_draw"; "on_show"; "on_show_view";
    "on_hide_view"; "on_mouse_motion"; "on_mouse_press"; "on_mouse_drag";
    "on_mouse_release"; "on_mouse_scroll"; "on_key_press"; "on_key_release";
    "on_resize"; "on_mouse_enter"; "on_mouse_leave" ]%string.

(** [hasattr(view, name)] *)
Definition hasattr (v : View) (name : string) : bool :=
  bool_decide (name ∈ View_methods) || bool_decide (name ∈ extra_attrs v).

(** [View.has_sections] (a property). *)
Definition has_sections (v : View) : bool :=
  match _section_manager v with
  | None => false
  | Some sm => sm_has_sections sm
  end.

(** [View.section_manager] (a property): the manager is created on first
    access.  A fresh [SectionManager(view)] has no section. *)
Definition fresh_section_manager : SectionManager :=
  {| sm_has_sections := false; managed_events := ∅; sm_attrs := ∅ |}.

Definition section_manager (v : View) : SectionManager :=
  match _section_manager v with
  | None => fresh_section_manager
  | Some sm => sm
  end.

(** ** The window and the world around it *)

Record Window : Type := mkWindow {
  width : Z;
  height : Z;
  viewport : Z * Z * Z * Z;
  _global_clock : Clock.Clock;
  _fixed_clock : FixedClock.FixedClock;
  _update_rate : float;
  _draw_rate : float;
  _fixed_rate : float;
  _fixed_frame_cap : option Z;
  _current_view : option ViewId;
  (* pyglet's EventDispatcher state *)
  event_types : list string;
  _event_stack : list (gmap string Handler)   (* top of the stack first *)
}.

Record World : Type := mkWorld {
  self : WindowId;                          (* the identity of [win] *)
  win : Window;
  views : gmap ViewId View;                 (* the View objects alive *)
  current_window : option WindowId;         (* the global behind set_window/get_window *)
  clock_items : list (Callback * float);    (* pyglet.clock's scheduled intervals *)
  log : list Action
}.

Definition set_win (f : Window -> Window) (w : World) : World :=
  {| self := self w; win := f (win w); views := views w;
     current_window := current_window w; clock_items := clock_items w;
     log := log w |}.

Definition set_views (f : gmap ViewId View -> gmap ViewId View) (w : World) : World :=
  {| self := self w; win := win w; views := f (views w);
     current_window := current_window w; clock_items := clock_items w;
     log := log w |}.

Definition set_clock_items (f : list (Callback * float) -> list (Callback * float))
    (w : World) : World :=
  {| self := self w; win := win w; views := views w;
     current_window := current_window w; clock_items := f (clock_items w);
     log := log w |}.

(** [arcade.window_commands.set_window] *)
Definition set_window (o : option WindowId) (w : World) : World :=
  {| self := self w; win := win w; views := views w;
     current_window := o; clock_items := clock_items w;
     log := log w |}.

Definition emit (a : Action) (w : World) : World :=
  {| self := self w; win := win w; views := views w;
     current_window := current_window w; clock_items := clock_items w;
     log := log w ++ [a] |}.

(** *** Field updates of the window *)

Definition with_global_clock (c : Clock.Clock) (x : Window) : Window :=
  {| width := width x; height := height x; viewport := viewport x;
     _global_clock := c; _fixed_clock := _fixed_clock x;
     _update_rate := _update_rate x; _draw_rate := _draw_rate x;
     _fixed_rate := _fixed_rate x; _fixed_frame_cap := _fixed_frame_cap x;
     _current_view := _current_view x;
     event_types := event_types x; _event_stack := _event_stack x |}.

Definition with_fixed_clock (c : FixedClock.FixedClock) (x : Window) : Window :=
  {| width := width x; height := height x; viewport := viewport x;
     _global_clock := _global_clock x; _fixed_clock := c;
     _update_rate := _update_rate x; _draw_rate := _draw_rate x;
     _fixed_rate := _fixed_rate x; _fixed_frame_cap := _fixed_frame_cap x;
     _current_view := _current_view x;
     event_types := event_types x; _event_stack := _event_stack x |}.

Definition with_update_rate (r : float) (x : Window) : Window :=
  {| width := width x; height := height x; viewport := viewport x;
     _global_clock := _global_clock x; _fixed_clock := _fixed_clock x;
     _update_rate := r; _draw_rate := _draw_rate x;
     _fixed_rate := _fixed_rate x; _fixed_frame_cap := _fixed_frame_cap x;
     _current_view := _current_view x;
     event_types := event_types x; _event_stack := _event_stack x |}.

Definition with_draw_rate (r : float) (x : Window) : Window :=
  {| width := width x; height := height x; viewport := viewport x;
     _global_clock := _global_clock x; _fixed_clock := _fixed_clock x;
     _update_rate := _update_rate x; _draw_rate := r;
     _fixed_rate := _fixed_rate x; _fixed_frame_cap := _fixed_frame_cap x;
     _current_view := _current_view x;
     event_types := event_types x; _event_stack := _event_stack x |}.

Definition with_viewport (vp : Z * Z * Z * Z) (x : Window) : Window :=
  {| width := width x; height := height x; viewport := vp;
     _global_clock := _global_clock x; _fixed_clock := _fixed_clock x;
     _update_rate := _update_rate x; _draw_rate := _draw_rate x;
     _fixed_rate := _fixed_rate x; _fixed_frame_cap := _fixed_frame_cap x;
     _current_view := _current_view x;
     event_types := event_types x; _event_stack := _event_stack x |}.

Definition with_current_view (v : option ViewId) (x : Window) : Window :=
  {| width := width x; height := height x; viewport := viewport x;
     _global_clock := _global_clock x; _fixed_clock := _fixed_clock x;
     _update_rate := _update_rate x; _draw_rate := _draw_rate x;
     _fixed_rate := _fixed_rate x; _fixed_frame_cap := _fixed_frame_cap x;
     _current_view := v;
     event_types := event_types x; _event_stack := _event_stack x |}.

Definition with_event_stack (s : list (gmap string Handler)) (x : Window) : Window :=
  {| width := width x; height := height x; viewport := viewport x;
     _global_clock := _global_clock x; _fixed_clock := _fixed_clock x;
     _update_rate := _update_rate x; _draw_rate := _draw_rate x;
     _fixed_rate := _fixed_rate x; _fixed_frame_cap := _fixed_frame_cap x;
     _current_view := _current_view x;
     event_types := event_types x; _event_stack := s |}.

(** ** The host: pyglet's clock and event dispatcher *)

Module pyglet.

(** Modelled from the spec: pyglet's clock (an external collaborator).
    Section 6: a periodic-callback facility, [schedule_interval(callback,
    rate)] and [unschedule(callback)]; unscheduling drops every entry of
    the callback and nothing else. *)
Definition schedule_interval (cb : Callback) (rate : float) (w : World) : World :=
  set_clock_items (fun items => items ++ [(cb, rate)]) w.

Definition unschedule (cb : Callback) (w : World) : World :=
  set_clock_items (filter (fun item => item.1 ≠ cb)) w.

Definition scheduled (cb : Callback) (w : World) : Prop :=
  cb ∈ (clock_items w).*1.

(** Modelled from the spec: pyglet's EventDispatcher (an external
    collaborator).  Sections 3 and 6: an ordered stack of handler sets;
    [push_handlers] puts a new set of named callables on top,
    [remove_handlers(owner)] unregisters the handlers of that owner (a set
    left empty leaves the stack), [dispatch_event] walks the stack from
    the top and ends at the window's own method. *)
Definition push_handlers (frame : gmap string Handler) (w : World) : World :=
  emit (PushHandlers frame)
    (set_win (fun x => with_event_stack (frame :: _event_stack x) x) w).

Definition owned_by (o : Owner) (h : Handler) : Prop :=
  handler_owner h = Some o.

#[global] Instance owned_by_dec o h : Decision (owned_by o h).
Proof. unfold owned_by. apply _. Defined.

Definition strip (o : Owner) (frame : gmap string Handler) : gmap string Handler :=
  filter (fun kv => ¬ owned_by o kv.2) frame.

Definition remove_from_stack (o : Owner) (s : list (gmap string Handler))
    : list (gmap string Handler) :=
  filter (fun frame => frame ≠ ∅) (strip o <$> s).

Definition remove_handlers (o : Owner) (w : World) : World :=
  emit (RemoveHandlers o)
    (set_win (fun x => with_event_stack (remove_from_stack o (_event_stack x)) x) w).

(** The handlers an event can reach, in the order the dispatcher tries
    them: those registered under its name in the stack, then the window's
    own method. *)
Definition reached (event_type : string) (w : World) : list Handler :=
  omap (fun frame : gmap string Handler => frame !! event_type) (_event_stack (win w))
    ++ [HBound OWindow event_type].

(** Handlers are user code; the scheduler and the binding protocol only
    see that the event went out. *)
Definition dispatch_event (event_type : string) (delta : float) (w : World) : World :=
  emit (Dispatch event_type delta) w.

End pyglet.

(** ** Window: scheduling (application.py, lines 360-365 and 416-450) *)

Definition bound_dispatch_updates (w : World) : Callback := DispatchUpdates (self w).

(** [Window.set_update_rate] *)
Definition set_update_rate (rate : float) (w : World) : World :=
  let w := set_win (with_update_rate rate) w in
  let w := pyglet.unschedule (bound_dispatch_updates w) w in
  pyglet.schedule_interval (bound_dispatch_updates w) rate w.

(** [Window.set_draw_rate] *)
Definition set_draw_rate (rate : float) (w : World) : World :=
  let w := set_win (with_draw_rate rate) w in
  let w := pyglet.unschedule RedrawWindows w in
  pyglet.schedule_interval RedrawWindows (_draw_rate (win w)) w.

(** [Window.close].  [super().close()] is pyglet's: it destroys the native
    window and its context and leaves the clock's schedule alone, which is
    why the method unschedules its own callback afterwards. *)
Definition close (w : World) : World :=
  let w := set_window None w in
  pyglet.unschedule (bound_dispatch_updates w) w.

(** [self._fixed_clock.accumulated] *)
Definition accumulated (w : World) : float :=
  FixedClock.accumulated (_global_clock (win w)) (_fixed_clock (win w)).

(** The test of the [while] loop of [_dispatch_updates]. *)
Definition fixed_update_due (fixed_count : Z) (w : World) : bool :=
  (_fixed_rate (win w) <=? accumulated w)%float
  && match _fixed_frame_cap (win w) with
     | None => true
     | Some cap => fixed_count <=? cap
     end.

(** The body of the loop, [fixed_count += 1] apart. *)
Definition fixed_update (w : World) : World :=
  let w := set_win (fun x =>
             with_fixed_clock (FixedClock.tick (_fixed_rate x) (_fixed_clock x)) x) w in
  pyglet.dispatch_event "on_fixed_update" (_fixed_rate (win w)) w.

(** The loop; [None] when [fuel] iterations were not enough to leave it. *)
Fixpoint fixed_updates (fuel : nat) (fixed_count : Z) (w : World) : option World :=
  match fuel with
  | O => None
  | S fuel =>
      if fixed_update_due fixed_count w
      then fixed_updates fuel (fixed_count + 1) (fixed_update w)
      else Some w
  end.

(** [Window._dispatch_updates], the update trigger. *)
Definition _dispatch_updates (fuel : nat) (delta_time : float) (w : World) : option World :=
  let w := set_win (fun x => with_global_clock (Clock.tick delta_time (_global_clock x)) x) w in
  match fixed_updates fuel 0 w with
  | None => None
  | Some w => Some (pyglet.dispatch_event "on_update" delta_time w)
  end.

(** *** Reading the log *)

Definition is_fixed_update (a : Action) : bool :=
  match a with
  | Dispatch e _ => bool_decide (e = "on_fixed_update"%string)
  | _ => false
  end.

(** The fixed-update dispatches recorded in a log. *)
Definition fixed_dispatches (l : list Action) : nat :=
  length (filter (fun a => is_fixed_update a = true) l).

(** What a call added to the log. *)
Definition added (before after : World) : list Action :=
  drop (length (log before)) (log after).

(** ** Window: construction (application.py, lines 111-267) *)

Record WindowArgs : Type := mkWindowArgs {
  arg_width : Z;
  arg_height : Z;
  arg_update_rate : float;
  arg_draw_rate : float;
  arg_fixed_rate : float;
  arg_fixed_frame_cap : option Z;
  arg_enable_polling : bool
}.

(** What the constructor finds around it. *)
Record Host : Type := mkHost {
  gl_config_available : bool;               (* false: pyglet raises NoSuchConfigException *)
  headless : bool;                          (* pyglet.options["headless"] *)
  window_event_types : list string;         (* pyglet.window.Window.event_types *)
  keyboard_events : gset string;            (* the events a KeyStateHandler handles *)
  mouse_events : gset string;               (* the events a MouseStateHandler handles *)
  host_views : gmap ViewId View;
  host_clock_items : list (Callback * float)
}.

Inductive constructed : Type :=
| Constructed (w : World)
| Failed (e : exn).

(** [push_handlers(obj)]: one handler of [obj] per event it handles. *)
Definition object_handlers (o : Owner) (events : gset string) : gmap string Handler :=
  set_to_map (fun event_type => (event_type, HBound o event_type)) events.

(** The body of [Window.__init__] once pyglet has created the native
    window, for a window that gets identity [id].  In
    [push_handlers(self.keyboard, self.mouse)] the one frame takes the
    handlers of both objects, the later object's where both handle an
    event: the union keeps the mouse's. *)
Definition Window_setup (id : WindowId) (h : Host) (a : WindowArgs) : World :=
  let x :=
    {| width := arg_width a; height := arg_height a;
       viewport := (0, 0, arg_width a, arg_height a);
       _global_clock := Clock.init;
       _fixed_clock := FixedClock.init (arg_fixed_rate a);
       _update_rate := arg_update_rate a;
       _draw_rate := arg_draw_rate a;
       _fixed_rate := arg_fixed_rate a;
       _fixed_frame_cap := arg_fixed_frame_cap a;
       _current_view := None;
       event_types := window_event_types h ++ ["on_update"; "on_action"; "on_fixed_update"]%string;
       _event_stack := [] |} in
  let w :=
    {| self := id; win := x; views := host_views h; current_window := None;
       clock_items := host_clock_items h; log := [] |} in
  let w := set_update_rate (arg_update_rate a) w in
  let w := set_window (Some id) w in
  let w := pyglet.push_handlers {[ "on_resize"%string := HBound OWindow "_on_resize" ]} w in
  if arg_enable_polling a then
    if headless h then pyglet.push_handlers (object_handlers OKeyboard (keyboard_events h)) w
    else pyglet.push_handlers (object_handlers OMouse (mouse_events h)
                               ∪ object_handlers OKeyboard (keyboard_events h)) w
  else w.

(** [Window.__init__]: the only failure the constructor raises itself is
    [NoOpenGLException], when pyglet finds no OpenGL configuration. *)
Definition Window_init (id : WindowId) (h : Host) (a : WindowArgs) : constructed :=
  if gl_config_available h
  then Constructed (Window_setup id h a)
  else Failed NoOpenGLException.

(** ** Window: the show/hide protocol (application.py, lines 803-892) *)

(** The values [show_view] can be handed. *)
Inductive pyval : Type :=
| PyNone
| PyInt (z : Z)
| PyFloat (f : float)
| PyStr (s : string)
| PyView (v : ViewId).   (* a reference to a View object of the store *)

(** [isinstance(x, View)]: the value refers to a View object. *)
Definition as_view (w : World) (x : pyval) : option ViewId :=
  match x with
  | PyView v => if views w !! v is Some _ then Some v else None
  | _ => None
  end.

(** [obj.has_sections] through a reference. *)
Definition ref_has_sections (w : World) (v : ViewId) : bool :=
  if views w !! v is Some V then has_sections V else false.

(** [obj.section_manager.managed_events] through a reference. *)
Definition ref_managed_events (w : World) (v : ViewId) : gset string :=
  if views w !! v is Some V then managed_events (section_manager V) else ∅.

(** [getattr(view.section_manager, event_type, None)] *)
Definition getattr_sections (w : World) (v : ViewId) (event_type : string) : Handler :=
  if views w !! v is Some V
  then if bool_decide (event_type ∈ sm_attrs (section_manager V))
       then HBound (OSections v) event_type else HNone
  else HNone.

(** [hasattr(view, event_type)] through a reference. *)
Definition ref_hasattr (w : World) (v : ViewId) (event_type : string) : bool :=
  if views w !! v is Some V then hasattr V event_type else false.

Definition with_window (o : option WindowId) (V : View) : View :=
  {| window := o; key := key V; _section_manager := _section_manager V;
     extra_attrs := extra_attrs V |}.

(** Lines 824-826: store the window that shows the view, if it has none. *)
Definition bind_window (v : ViewId) (w : World) : World :=
  match views w !! v with
  | Some V =>
      match window V with
      | None => emit (BindWindow v (self w)) (set_views (insert v (with_window (Some (self w)) V)) w)
      | Some _ => w
      end
  | None => w
  end.

(** Lines 836-841: remove the handlers of the view shown so far. *)
Definition remove_previous (w : World) : World :=
  match _current_view (win w) with
  | Some c =>
      let w := emit (Call (OView c) "on_hide_view") w in
      let w := if ref_has_sections w c then pyglet.remove_handlers (OSections c) w else w in
      pyglet.remove_handlers (OView c) w
  | None => w
  end.

(** Line 844. *)
Definition set_current_view (o : option ViewId) (w : World) : World :=
  emit (SetCurrentView o) (set_win (with_current_view o) w).

(** Lines 845-854: the names the section manager handles, as the local
    variable [section_manager_managed_events] holds them. *)
Definition section_manager_managed_events (w : World) (v : ViewId) : gset string :=
  if ref_has_sections w v then ref_managed_events w v else ∅.

Definition section_handlers (w : World) (v : ViewId) : gmap string Handler :=
  set_to_map (fun event_type => (event_type, getattr_sections w v event_type))
             (ref_managed_events w v).

Definition push_section_handlers (v : ViewId) (w : World) : World :=
  if ref_has_sections w v then
    if bool_decide (section_handlers w v ≠ ∅)
    then pyglet.push_handlers (section_handlers w v) w
    else w
  else w.

(** Lines 858-866. *)
Definition view_handlers (w : World) (v : ViewId) : gmap string Handler :=
  list_to_map
    ((fun event_type => (event_type, HBound (OView v) event_type)) <$>
     filter (fun event_type =>
               (event_type ≠ "on_show"%string)
               ∧ (event_type ∉ section_manager_managed_events w v)
               ∧ (ref_hasattr w v event_type = true))
            (event_types (win w))).

Definition push_view_handlers (v : ViewId) (w : World) : World :=
  if bool_decide (view_handlers w v ≠ ∅)
  then pyglet.push_handlers (view_handlers w v) w
  else w.

(** Lines 867-870; [self._current_view] is the new view by now. *)
Definition shown_hooks (w : World) : World :=
  match _current_view (win w) with
  | Some c =>
      let w := emit (Call (OView c) "on_show") w in
      let w := emit (Call (OView c) "on_show_view") w in
      if ref_has_sections w c then emit (Call (OSections c) "on_show_view") w else w
  | None => w
  end.

(** [Window.show_view] *)
Definition show_view (new_view : pyval) (w : World) : outcome World :=
  match as_view w new_view with
  | None => Raise TypeError w
  | Some v =>
      let w := emit ScreenUse w in
      let vp := (0, 0, width (win w), height (win w)) in
      let w := emit (SetViewport vp) (set_win (with_viewport vp) w) in
      let w := bind_window v w in
      let w := remove_previous w in
      let w := set_current_view (Some v) w in
      let w := push_section_handlers v w in
      let w := push_view_handlers v w in
      Ok (shown_hooks w)
  end.

(** [Window.hide_view] *)
Definition hide_view (w : World) : outcome World :=
  match _current_view (win w) with
  | None => Ok w
  | Some c =>
      let w := emit (Call (OView c) "on_hide_view") w in
      let w :=
        if ref_has_sections w c
        then pyglet.remove_handlers (OSections c) (emit (Call (OSections c) "on_hide_view") w)
        else w in
      let w := pyglet.remove_handlers (OView c) w in
      Ok (set_current_view None w)
  end.

(** ** View: construction (application.py, lines 1096-1099) *)

Section ViewConstruction.

(** [arcade.get_window] lives in arcade/window_commands.py, which is not
    among the sources, and is taken as a parameter: given the global
    current-window reference it hands back a window or raises.  Its
    result is stored in a field that [View.clear] (line 1152) dereferences
    without a test. *)
Variable get_window : option WindowId -> exn + WindowId.

(** [View.__init__(self, window=None)], for an instance of a class that
    adds the names [cls_attrs] to those of [View]. *)
Definition View_init (cls_attrs : gset string)
    (current : option WindowId) (window_arg : option WindowId) : exn + View :=
  match window_arg with
  | None =>
      match get_window current with
      | inl e => inl e
      | inr win_id =>
          inr {| window := Some win_id; key := None;
                 _section_manager := None; extra_attrs := cls_attrs |}
      end
  | Some win_id =>
      inr {| window := Some win_id; key := None;
             _section_manager := None; extra_attrs := cls_attrs |}
  end.

End ViewConstruction.

(** ** What the claims speak of *)

(** A handler of a View or of a View's SectionManager, as opposed to the
    window-level ones ([Window]'s own methods, the keyboard and mouse state
    handlers). *)
Definition view_level (h : Handler) : Prop :=
  match handler_owner h with
  | Some (OView _) | Some (OSections _) => True
  | _ => False
  end.

#[global] Instance view_level_dec h : Decision (view_level h).
Proof. unfold view_level. destruct (handler_owner h) as [[]|]; apply _. Defined.

(** The handlers a world may hold in its stack: window-level ones, those of
    the view on show and, if that view has sections, those of its manager. *)
Definition registered_ok (w : World) (h : Handler) : Prop :=
  match handler_owner h with
  | Some (OView v) => _current_view (win w) = Some v
  | Some (OSections v) => _current_view (win w) = Some v ∧ ref_has_sections w v = true
  | _ => True
  end.

#[global] Instance registered_ok_dec w h : Decision (registered_ok w h).
Proof. unfold registered_ok. destruct (handler_owner h) as [[]|]; apply _. Defined.

Definition stack_ok (w : World) : Prop :=
  Forall (map_Forall (fun (_ : string) h => registered_ok w h)) (_event_stack (win w)).

#[global] Instance stack_ok_dec w : Decision (stack_ok w).
Proof. unfold stack_ok. apply _. Defined.

(** The View object [c] has a SectionManager, and the manager holds a
    section: read off the objects, not through [View.has_sections]. *)
Definition sections_present (w : World) (c : ViewId) : Prop :=
  match views w !! c with
  | Some V =>
      match _section_manager V with
      | Some sm => sm_has_sections sm = true
      | None => False
      end
  | None => False
  end.

#[global] Instance sections_present_dec w c : Decision (sections_present w c).
Proof.
  unfold sections_present.
  destruct (views w !! c) as [V|]; [destruct (_section_manager V)|]; apply _.
Defined.

Definition is_push (a : Action) : Prop :=
  match a with
  | PushHandlers _ => True
  | _ => False
  end.

#[global] Instance is_push_dec a : Decision (is_push a).
Proof. destruct a; apply _. Defined.

(** The order of Section 4.3, steps c-e: within what [show_view] did, every
    push of handlers comes before the assignment of [current_view]. *)
Definition pushes_before_current_view (v : ViewId) (l : list Action) : Prop :=
  ∀ (i j : nat) frame,
    l !! i = Some (PushHandlers frame) →
    l !! j = Some (SetCurrentView (Some v)) →
    (i < j)%nat.

(** Section 5: both periodic triggers are off the clock. *)
Definition both_triggers_unscheduled (w : World) : Prop :=
  ¬ pyglet.scheduled (bound_dispatch_updates w) w ∧ ¬ pyglet.scheduled RedrawWindows w.

(** *** What [show_view] and [hide_view] log, phase by phase *)

Definition bind_actions (w : World) (v : ViewId) : list Action :=
  match views w !! v with
  | Some V => if window V is None then [BindWindow v (self w)] else []
  | None => []
  end.

Definition remove_actions (w : World) : list Action :=
  match _current_view (win w) with
  | Some c =>
      Call (OView c) "on_hide_view"
      :: (if ref_has_sections w c then [RemoveHandlers (OSections c)] else [])
      ++ [RemoveHandlers (OView c)]
  | None => []
  end.

Definition section_push (w : World) (v : ViewId) : list Action :=
  if ref_has_sections w v && bool_decide (section_handlers w v ≠ ∅)
  then [PushHandlers (section_handlers w v)] else [].

Definition view_push (w : World) (v : ViewId) : list Action :=
  if bool_decide (view_handlers w v ≠ ∅) then [PushHandlers (view_handlers w v)] else [].

Definition shown_actions (w : World) (v : ViewId) : list Action :=
  [Call (OView v) "on_show"; Call (OView v) "on_show_view"]
  ++ (if ref_has_sections w v then [Call (OSections v) "on_show_view"] else []).

Definition hide_actions (w : World) (c : ViewId) : list Action :=
  Call (OView c) "on_hide_view"
  :: (if ref_has_sections w c
      then [Call (OSections c) "on_hide_view"; RemoveHandlers (OSections c)] else [])
  ++ [RemoveHandlers (OView c); SetCurrentView None].

(** Two worlds whose views look alike to [show_view]: the same event
    types, and view objects that differ at most in their [window]. *)
Definition same_views (w1 w2 : World) : Prop :=
  event_types (win w1) = event_types (win w2)
  ∧ ∀ v : ViewId,
      ref_has_sections w1 v = ref_has_sections w2 v
      ∧ ref_managed_events w1 v = ref_managed_events w2 v
      ∧ (∀ e, getattr_sections w1 v e = getattr_sections w2 v e)
      ∧ (∀ e, ref_hasattr w1 v e = ref_hasattr w2 v e).

(** The frames a list of actions pushed, the last one first, as they lie on
    the stack. *)
Definition frames_of (l : list Action) : list (gmap string Handler) :=
  reverse (omap (fun a => match a with PushHandlers frame => Some frame | _ => None end) l).

(** The stack once the handlers of the view on show and of its section
    manager are unregistered. *)
Definition cleared_stack (w : World) : list (gmap string Handler) :=
  match _current_view (win w) with
  | Some c =>
      pyglet.remove_from_stack (OView c)
        (if ref_has_sections w c
         then pyglet.remove_from_stack (OSections c) (_event_stack (win w))
         else _event_stack (win w))
  | None => _event_stack (win w)
  end.

(** The worlds a program can bring about: a window is opened, views are
    created, shown and hidden, the triggers fire and are rescheduled, the
    window is closed. *)
Inductive reachable : World → Prop :=
| reach_init id h a w :
    Window_init id h a = Constructed w → reachable w
| reach_new_view v V w :
    reachable w → views w !! v = None → reachable (set_views (insert v V) w)
| reach_show_view x w w' :
    reachable w → show_view x w = Ok w' → reachable w'
| reach_hide_view w w' :
    reachable w → hide_view w = Ok w' → reachable w'
| reach_dispatch_updates fuel delta_time w w' :
    reachable w → _dispatch_updates fuel delta_time w = Some w' → reachable w'
| reach_set_update_rate rate w :
    reachable w → reachable (set_update_rate rate w)
| reach_set_draw_rate rate w :
    reachable w → reachable (set_draw_rate rate w)
| reach_close w :
    reachable w → reachable (close w).

(** ** Sample worlds *)

Module Sample.

Definition host : Host :=
  {| gl_config_available := true;
     headless := false;
     window_event_types :=
       [ "on_key_press"; "on_key_release"; "on_mouse_motion"; "on_mouse_drag";
         "on_mouse_press"; "on_mouse_release"; "on_mouse_scroll";
         "on_mouse_enter"; "on_mouse_leave"; "on_close"; "on_resize";
         "on_show"; "on_hide"; "on_draw" ]%string;
     keyboard_events := {[ "on_key_press"; "on_key_release" ]}%string;
     mouse_events := {[ "on_mouse_press"; "on_mouse_release" ]}%string;
     host_views := ∅;
     host_clock_items := [] |}.

(** [Window(fixed_frame_cap=cap)], the other arguments at their defaults. *)
Definition args (cap : option Z) : WindowArgs :=
  {| arg_width := 1280; arg_height := 720;
     arg_update_rate := (1 / 60)%float; arg_draw_rate := (1 / 60)%float;
     arg_fixed_rate := (1 / 60)%float; arg_fixed_frame_cap := cap;
     arg_enable_polling := true |}.

Definition opened (cap : option Z) : World := Window_setup 1 host (args cap).

(** [Window(fixed_rate=rate)], the other arguments at their defaults. *)
Definition rate_args (rate : float) : WindowArgs :=
  {| arg_width := 1280; arg_height := 720;
     arg_update_rate := (1 / 60)%float; arg_draw_rate := (1 / 60)%float;
     arg_fixed_rate := rate; arg_fixed_frame_cap := None;
     arg_enable_polling := true |}.

(** A view whose class overrides nothing, never shown yet. *)
Definition plain_view : View :=
  {| window := Some 1%nat; key := None; _section_manager := None; extra_attrs := ∅ |}.

(** A view with a section that takes the mouse presses and the drawing. *)
Definition sectioned_view : View :=
  {| window := Some 1%nat; key := None;
     _section_manager :=
       Some {| sm_has_sections := true;
               managed_events := {[ "on_mouse_press"; "on_draw" ]}%string;
               sm_attrs := {[ "on_mouse_press"; "on_draw"; "on_update";
                              "on_show_view"; "on_hide_view" ]}%string |};
     extra_attrs := {[ "on_close" ]}%string |}.

(** A window and two views built for it. *)
Definition world : World :=
  set_views (fun _ => {[ 7%nat := plain_view; 8%nat := sectioned_view ]}) (opened None).



End Sample.

(** ** Window: the rest of the scheduling and input surface *)

(** The rates a callback is scheduled with, one per entry of the clock. *)
Definition scheduled_rates (cb : Callback) (w : World) : list float :=
  (filter (fun item => item.1 = cb) (clock_items w)).*2.

(** The variable-update dispatches recorded in a log. *)
Definition update_dispatches (l : list Action) : list float :=
  omap (fun a => match a with
                 | Dispatch e delta =>
                     if bool_decide (e = "on_update"%string) then Some delta else None
                 | _ => None
                 end) l.

(** [Window.center_window] (lines 390-399): the location handed to
    [set_location], from the display size [get_display_size()] returns and
    the window size [get_size()] returns.  Python's [//] on integers is
    floor division, as [Z.div] is for a positive divisor. *)
Definition center_window_location
    (screen_width screen_height window_width window_height : Z) : Z * Z :=
  ((screen_width - window_width) / 2, (screen_height - window_height) / 2).

(** [View.on_key_press] and [View.on_key_release] (lines 1249-1277): the
    view remembers the key, and the [False] returned lets the event go on
    down the stack.  The [try] guards an assignment that an ordinary
    attribute cannot fail. *)
Definition with_key (k : option Z) (V : View) : View :=
  {| window := window V; key := k; _section_manager := _section_manager V;
     extra_attrs := extra_attrs V |}.

Definition View_on_key_press (symbol modifiers : Z) (V : View) : View * bool :=
  (with_key (Some symbol) V, false).

Definition View_on_key_release (_symbol _modifiers : Z) (V : View) : View * bool :=
  (with_key None V, false).

Inductive KeyEvent : Set :=
| KeyPress (symbol modifiers : Z)
| KeyRelease (symbol modifiers : Z).

(** The dispatcher delivering one keyboard event to the view's handler. *)
Definition View_on_key (ev : KeyEvent) (V : View) : View * bool :=
  match ev with
  | KeyPress symbol modifiers => View_on_key_press symbol modifiers V
  | KeyRelease symbol modifiers => View_on_key_release symbol modifiers V
  end.

(** A run of keyboard events: the view they leave and what each handler
    returned. *)
Fixpoint View_on_keys (evs : list KeyEvent) (V : View) : View * list bool :=
  match evs with
  | [] => (V, [])
  | ev :: evs =>
      let '(V1, handled) := View_on_key ev V in
      let '(V2, rest) := View_on_keys evs V1 in
      (V2, handled :: rest)
  end.

(** *** [Window.test] (lines 783-801) *)

(** What the loop of [test] asks of pyglet and of the operating system. *)
Inductive HostCall : Set :=
| SwitchTo               (* self.switch_to() *)
| DispatchEvents         (* self.dispatch_events() *)
| DispatchDraw           (* self.dispatch_event("on_draw") *)
| Flip                   (* self.flip() *)
| Sleep (seconds : float).

Inductive TestStep : Type :=
| ByHost (c : HostCall)
| ByWindow (a : Action).

(** The loop of [test], [frames] iterations to go.  [now k] is what the
    [k]-th call of [time.time()] returns, [n] the number of calls made so
    far; [fuel] bounds the fixed-update loop of each firing. *)
Fixpoint test_frames (fuel : nat) (now : nat → float) (frames n : nat)
    (start_time : float) (trace : list TestStep) (w : World)
    : option (World * list TestStep) :=
  match frames with
  | O => Some (w, trace)
  | S frames =>
      let trace := trace ++ [ByHost SwitchTo; ByHost DispatchEvents; ByHost DispatchDraw; ByHost Flip] in
      let current_time := now n in
      let elapsed_time := (current_time - start_time)%float in
      let trace :=
        if (elapsed_time <? 1 / 60)%float
        then trace ++ [ByHost (Sleep (1 / 60 - elapsed_time)%float)]
        else trace in
      match _dispatch_updates fuel (1 / 60)%float w with
      | None => None
      | Some w' =>
          test_frames fuel now frames (S n) current_time
            (trace ++ (ByWindow <$> added w w')) w'
      end
  end.

(** [Window.test(frames)]; [range(frames)] is empty for a negative
    [frames]. *)
Definition test (fuel : nat) (now : nat → float) (frames : Z) (w : World)
    : option (World * list TestStep) :=
  test_frames fuel now (Z.to_nat frames) 1 (now 0%nat) [] w.

Definition is_draw_or_update (s : TestStep) : bool :=
  match s with
  | ByHost DispatchDraw => true
  | ByWindow (Dispatch e _) => bool_decide (e = "on_update"%string)
  | _ => false
  end.

(** The draws and the variable updates of a trace, in order. *)
Definition draws_and_updates (trace : list TestStep) : list TestStep :=
  filter (fun s => is_draw_or_update s = true) trace.

(** One frame of [test], as the draws and updates show it. *)
Definition frame_steps : list TestStep :=
  [ByHost DispatchDraw; ByWindow (Dispatch "on_update" (1 / 60)%float)].

(** *** Showing and hiding, as the dispatcher sees them *)

(** The handlers the frames of a stack hold for an event, top first. *)
Definition stack_reach (e : string) (s : list (gmap string Handler)) : list Handler :=
  omap (fun frame : gmap string Handler => frame !! e) s.

(** The section manager of [v] has a method for every event it manages, so
    that [getattr(manager, event_type, None)] finds one. *)
Definition sections_bound (w : World) (v : ViewId) : Prop :=
  ∀ e, e ∈ section_manager_managed_events w v → getattr_sections w v e ≠ HNone.

#[global] Instance sections_bound_dec w v : Decision (sections_bound w v).
Proof.
  unfold sections_bound.
  apply (set_Forall_dec (fun e => getattr_sections w v e ≠ HNone)).
Defined.

(** Line 240, [self.push_handlers(on_resize=self._on_resize)]: the last
    handler a stack holds for a resize is the window's own [_on_resize]. *)
Definition resize_hooked (s : list (gmap string Handler)) : Prop :=
  ∃ before, stack_reach "on_resize" s = before ++ [HBound OWindow "_on_resize"].

(** The handlers of an event that do not belong to a view or to a view's
    section manager. *)
Definition window_level_of (l : list Handler) : list Handler :=
  filter (fun h => ¬ view_level h) l.

(** ** The documentation experiment (util/doc_experiment.py) *)

Module DocExperiment.

Definition EXCLUDE_MODULES : gset string := {[ "examples"; "experimental" ]}%string.

(** What the script sees of a path: pathlib's [stem] and [suffix] of its
    name; whether [is_file()] holds, and then what [read_text()] does, which
    is to hand back the text or to raise (on bytes that are no UTF-8, on a
    file it may not read); whether [is_dir()] holds, and then the paths
    [iterdir()] yields, in its order.  Directories are taken to be
    listable. *)
#[local] Unset Elimination Schemes.

Inductive Entry (Exc : Type) : Type :=
| File (stem suffix : string) (text : Exc + string)
| Dir (stem : string) (entries : list (Entry Exc))
| Other (stem suffix : string).            (* neither a file nor a directory *)

Arguments File {Exc} stem suffix text.
Arguments Dir {Exc} stem entries.
Arguments Other {Exc} stem suffix.

Definition entry_stem {Exc : Type} (path : Entry Exc) : string :=
  match path with
  | File stem _ _ => stem
  | Dir stem _ => stem
  | Other stem _ => stem
  end.

(** [d[k] = v] on a Python dict, which keeps its keys in the order they
    were first inserted: an existing key keeps its place and gets the new
    value. *)
Fixpoint dict_set {A : Type} (k : string) (v : A) (d : list (string * A))
    : list (string * A) :=
  match d with
  | [] => [(k, v)]
  | (k', v') :: d => if decide (k = k') then (k', v) :: d else (k', v') :: dict_set k v d
  end.

(** [s * n] on a Python string: empty for [n <= 0]. *)
Definition str_mul (s : string) (n : Z) : string :=
  Nat.iter (Z.to_nat n) (String.append s) ""%string.

Section Script.

(** [ast.parse] and [str.strip] are Python's own and are taken as
    parameters: the first hands back the syntax tree of a module's text or
    raises, the second trims a string.  [Exc] is the type of the
    exceptions [read_text] and [ast.parse] raise. *)
Variables Ast Exc : Type.
Variable ast_parse : string → Exc + Ast.
Variable strip : string → string.

(** The errors the script can end with: those of [read_text] and
    [ast.parse], and those [iterdir()] raises on a path that is missing or
    is no directory. *)
Inductive Error : Type :=
| Raised (e : Exc)
| FileNotFoundError
| NotADirectoryError.

(** [ModuleInfo]: of [_file_path] the stem is all the script reads;
    [_tree] is an attribute only of a module made from a file; the lists
    of collected data stay empty and are left out. *)
Inductive ModuleInfo : Type :=
| mkModuleInfo (_file_path_stem : string) (_source : option string) (_tree : option Ast)
    (children : list (string * ModuleInfo)).

Definition _file_path_stem (m : ModuleInfo) : string :=
  match m with mkModuleInfo stem _ _ _ => stem end.

Definition _source (m : ModuleInfo) : option string :=
  match m with mkModuleInfo _ source _ _ => source end.

Definition _tree (m : ModuleInfo) : option Ast :=
  match m with mkModuleInfo _ _ tree _ => tree end.

Definition children (m : ModuleInfo) : list (string * ModuleInfo) :=
  match m with mkModuleInfo _ _ _ children => children end.

(** [ModuleInfo.__init__(path)]; [text] is what [read_text()] does when the
    path is a file.  An exception of [read_text] or of [ast.parse] leaves
    the constructor, and no object is made. *)
Definition ModuleInfo_init (stem : string) (text : option (Exc + string))
    : Exc + ModuleInfo :=
  match text with
  | Some (inl e) => inl e
  | Some (inr source) =>
      match ast_parse source with
      | inl e => inl e
      | inr tree => inr (mkModuleInfo stem (Some source) (Some tree) [])
      end
  | None => inr (mkModuleInfo stem None None [])
  end.

(** [ModuleInfo.module_name] *)
Definition module_name (m : ModuleInfo) : string := strip (_file_path_stem m).

(** [parent.children[module.module_name] = module] *)
Definition set_child (module parent : ModuleInfo) : ModuleInfo :=
  mkModuleInfo (_file_path_stem parent) (_source parent) (_tree parent)
    (dict_set (module_name module) module (children parent)).

(** The body of the loop of [recurse_dir] for one path of the directory;
    the result is the parent as the body leaves it.  The loop inside is
    [recurse_dir] on the sub-directory. *)
Fixpoint visit (path : Entry Exc) (parent : ModuleInfo) : Exc + ModuleInfo :=
  match path with
  | Dir stem entries =>
      if bool_decide (stem ∉ EXCLUDE_MODULES) then
        match ModuleInfo_init stem None with
        | inl e => inl e
        | inr module =>
            match
              (fix recurse_dir (entries : list (Entry Exc)) (parent : ModuleInfo) :=
                 match entries with
                 | [] => inr parent
                 | path :: entries =>
                     match visit path parent with
                     | inl e => inl e
                     | inr parent => recurse_dir entries parent
                     end
                 end) entries module
            with
            | inl e => inl e
            | inr module =>
                if (0 <? length (children module))%nat
                then inr (set_child module parent)
                else inr parent
            end
        end
      else inr parent
  | File stem suffix text =>
      if bool_decide (suffix = ".py"%string) then
        match ModuleInfo_init stem (Some text) with
        | inl e => inl e
        | inr module => inr (set_child module parent)
        end
      else inr parent
  | Other _ _ => inr parent
  end.

(** [recurse_dir(dir, parent)], [entries] being what [dir.iterdir()]
    yields.  Python hands back [parent.children.values()], a view of the
    parent it has filled; here the filled parent is handed back. *)
Fixpoint recurse_dir (entries : list (Entry Exc)) (parent : ModuleInfo)
    : Exc + ModuleInfo :=
  match entries with
  | [] => inr parent
  | path :: entries =>
      match visit path parent with
      | inl e => inl e
      | inr parent => recurse_dir entries parent
      end
  end.

(** [build_module_tree()]; [arcade] is what the working directory holds
    under the name arcade, if anything. *)
Definition build_module_tree (arcade : option (Entry Exc)) : Error + ModuleInfo :=
  match arcade with
  | Some (Dir _ entries) =>
      match ModuleInfo_init "arcade" None with
      | inl e => inl (Raised e)
      | inr root_module =>
          match recurse_dir entries root_module with
          | inl e => inl (Raised e)
          | inr root_module => inr root_module
          end
      end
  | Some (File _ _ text) =>
      match ModuleInfo_init "arcade" (Some text) with
      | inl e => inl (Raised e)
      | inr _ => inl NotADirectoryError
      end
  | Some (Other _ _) => inl NotADirectoryError
  | None => inl FileNotFoundError
  end.

(** [ModuleInfo.print_tree(level)]: the lines it prints. *)
Fixpoint print_tree (level : Z) (m : ModuleInfo) : list string :=
  (fix each (modules : list (string * ModuleInfo)) : list string :=
     match modules with
     | [] => []
     | (_, module) :: modules =>
         (String.append (str_mul " " (level * 2)) (module_name module)
          :: print_tree (level + 1) module)
         ++ each modules
     end) (children m).

(** The script: what it prints, or the error it ends with. *)
Definition main (arcade : option (Entry Exc)) : Error + list string :=
  match build_module_tree arcade with
  | inl e => inl e
  | inr root => inr ("arcade"%string :: print_tree 1 root)
  end.

(** The files a visit of a path loads, in order, up to the first that
    fails: for each what [read_text()] does. *)
Fixpoint loaded_texts (path : Entry Exc) : list (Exc + string) :=
  match path with
  | Dir stem entries =>
      if bool_decide (stem ∉ EXCLUDE_MODULES)
      then (fix each (entries : list (Entry Exc)) : list (Exc + string) :=
              match entries with
              | [] => []
              | path :: entries => loaded_texts path ++ each entries
              end) entries
      else []
  | File _ suffix text => if bool_decide (suffix = ".py"%string) then [text] else []
  | Other _ _ => []
  end.

(** The exception of the first file of a list that cannot be read or does
    not parse. *)
Fixpoint first_error (texts : list (Exc + string)) : option Exc :=
  match texts with
  | [] => None
  | inl e :: _ => Some e
  | inr source :: texts =>
      match ast_parse source with
      | inl e => Some e
      | inr _ => first_error texts
      end
  end.

(** A module made from a file has a tree and no children; one made from a
    directory has children, each of them populated in turn. *)
Fixpoint populated (m : ModuleInfo) : Prop :=
  match m with
  | mkModuleInfo _ _ tree children =>
      match tree with
      | Some _ => children = []
      | None =>
          children ≠ []
          ∧ (fix each (modules : list (string * ModuleInfo)) : Prop :=
               match modules with
               | [] => True
               | (_, module) :: modules => populated module ∧ each modules
               end) children
      end
  end.

End Script.

#[local] Set Elimination Schemes.

Arguments Raised {Exc} e.
Arguments FileNotFoundError {Exc}.
Arguments NotADirectoryError {Exc}.
Arguments mkModuleInfo {Ast} _file_path_stem _source _tree children.
Arguments _file_path_stem {Ast} m.
Arguments _source {Ast} m.
Arguments _tree {Ast} m.
Arguments children {Ast} m.
Arguments ModuleInfo_init {Ast Exc} ast_parse stem text.
Arguments module_name {Ast} strip m.
Arguments set_child {Ast} strip module parent.
Arguments visit {Ast Exc} ast_parse strip path parent.
Arguments recurse_dir {Ast Exc} ast_parse strip entries parent.
Arguments build_module_tree {Ast Exc} ast_parse strip arcade.
Arguments print_tree {Ast} strip level m.
Arguments main {Ast Exc} ast_parse strip arcade.
Arguments loaded_texts {Exc} path.
Arguments first_error {Ast Exc} ast_parse texts.
Arguments populated {Ast} m.

(** A path that brings a module into the tree: a Python file, or a
    directory outside the excluded names with such a path in it. *)
Inductive has_modules {Exc : Type} : Entry Exc → Prop :=
| has_modules_file stem text : has_modules (File stem ".py" text)
| has_modules_dir stem entries path :
    stem ∉ EXCLUDE_MODULES →
    path ∈ entries →
    has_modules path →
    has_modules (Dir stem entries).

(** A package to try the script on: [ast.parse] is stood for by a parser
    that takes every text but one and hands back its length; the
    [examples] directory holds a file that does not parse and one that
    cannot be read. *)
Definition sample_parse (text : string) : string + nat :=
  if decide (text = "def ("%string) then inl "SyntaxError"%string
  else inr (String.length text).

Definition sample_package : Entry string :=
  Dir "arcade"
    [ File "__init__" ".py" (inr "import gl");
      File "README" ".md" (inr "docs");
      Dir "examples" [ File "broken" ".py" (inr "def (");
                       File "binary" ".py" (inl "UnicodeDecodeError") ];
      Dir "gl" [ File "context" ".py" (inr "x = 1");
                 Dir "backends" [File "notes" ".txt" (inr "")] ];
      Dir "resources" [File "logo" ".png" (inl "UnicodeDecodeError")] ]%string.

End DocExperiment.

(** * Properties *)

(** ** The log *)

Lemma added_app (w w' : World) (l : list Action) :
  log w' = log w ++ l → added w w' = l.
Proof. unfold added. intros ->. by rewrite drop_app_length. Qed.

Lemma fixed_dispatches_app (l1 l2 : list Action) :
  fixed_dispatches (l1 ++ l2) = (fixed_dispatches l1 + fixed_dispatches l2)%nat.
Proof. unfold fixed_dispatches. by rewrite filter_app, length_app. Qed.

Lemma fixed_dispatches_replicate (k : nat) (rate : float) :
  fixed_dispatches (replicate k (Dispatch "on_fixed_update" rate)) = k.
Proof.
  induction k as [|k IH]; [done|].
  change (replicate (S k) ?a) with ([a] ++ replicate k a).
  rewrite fixed_dispatches_app, IH. done.
Qed.

(** ** The scheduler *)

Lemma fixed_update_log (w : World) :
  log (fixed_update w) = log w ++ [Dispatch "on_fixed_update" (_fixed_rate (win w))].
Proof. by destruct w as [? [] ? ? ? ?]. Qed.

Lemma fixed_update_rate (w : World) :
  _fixed_rate (win (fixed_update w)) = _fixed_rate (win w).
Proof. by destruct w as [? [] ? ? ? ?]. Qed.

Lemma fixed_update_cap (w : World) :
  _fixed_frame_cap (win (fixed_update w)) = _fixed_frame_cap (win w).
Proof. by destruct w as [? [] ? ? ? ?]. Qed.

(** With a cap the loop ends by itself: [fixed_count] runs from its start
    up to [cap + 1] at most. *)
Lemma fixed_updates_capped (cap : Z) (fuel : nat) :
  ∀ (fixed_count : Z) (w : World),
    _fixed_frame_cap (win w) = Some cap →
    (Z.to_nat (cap + 1 - fixed_count) < fuel)%nat →
    ∃ (w' : World) (k : nat),
      fixed_updates fuel fixed_count w = Some w'
      ∧ log w' = log w ++ replicate k (Dispatch "on_fixed_update" (_fixed_rate (win w)))
      ∧ (k ≤ Z.to_nat (cap + 1 - fixed_count))%nat.
Proof.
  induction fuel as [|fuel IH]; intros fixed_count w Hcap Hfuel; [lia|].
  simpl. destruct (fixed_update_due fixed_count w) eqn:Hdue.
  - unfold fixed_update_due in Hdue. rewrite Hcap in Hdue.
    apply andb_prop in Hdue as [_ Hle]. apply Z.leb_le in Hle.
    destruct (IH (fixed_count + 1) (fixed_update w)) as (w' & k & Hrun & Hlog & Hk).
    { by rewrite fixed_update_cap. }
    { lia. }
    exists w', (S k). split; [done|]. split; [|lia].
    rewrite Hlog, fixed_update_log, fixed_update_rate, <- app_assoc. done.
  - exists w, 0%nat. split; [done|]. split; [|lia].
    simpl. by rewrite app_nil_r.
Qed.

(** With [fixed_frame_cap = cap] a firing of the update trigger always
    returns, after at most [cap + 1] fixed updates (none when [cap] is
    negative): the loop tests [fixed_count <= cap] with the count of the
    updates already made. *)
Theorem dispatch_updates_capped (cap : Z) (fuel : nat) (delta_time : float) (w : World) :
  _fixed_frame_cap (win w) = Some cap →
  (Z.to_nat (cap + 1) < fuel)%nat →
  ∃ w' : World,
    _dispatch_updates fuel delta_time w = Some w'
    ∧ (fixed_dispatches (added w w') ≤ Z.to_nat (cap + 1))%nat.
Proof.
  intros Hcap Hfuel. unfold _dispatch_updates.
  set (w1 := set_win _ w).
  destruct (fixed_updates_capped cap fuel 0 w1) as (w2 & k & -> & Hlog & Hk).
  { by destruct w as [? [] ? ? ? ?]. }
  { by rewrite Z.sub_0_r. }
  eexists. split; [done|].
  assert (log w1 = log w) as Hw1 by by destruct w as [? [] ? ? ? ?].
  rewrite (added_app w _ (replicate k (Dispatch "on_fixed_update" (_fixed_rate (win w1)))
                          ++ [Dispatch "on_update" delta_time])).
  - rewrite fixed_dispatches_app, fixed_dispatches_replicate.
    change (fixed_dispatches [Dispatch "on_update" delta_time]) with 0%nat.
    rewrite Z.sub_0_r in Hk. lia.
  - unfold pyglet.dispatch_event, emit. simpl. rewrite Hlog, Hw1, <- app_assoc. done.
Qed.

Lemma dispatch_updates_capped_witness :
  ∃ w' : World,
    _dispatch_updates 3 (3 / 60)%float (Sample.opened (Some 1)) = Some w'
    ∧ (fixed_dispatches (added (Sample.opened (Some 1%Z)) w') ≤ Z.to_nat (1 + 1)%Z)%nat.
Proof.
  apply (dispatch_updates_capped 1 3 (3 / 60)%float (Sample.opened (Some 1))).
  - reflexivity.
  - simpl. lia.
Defined.

(** C1, evaluated: a window made with [fixed_frame_cap = 1] and
    [fixed_rate = 1/60] whose update trigger fires with a frame delta of
    [3/60] dispatches two fixed updates in that one firing, one more than
    the cap. *)
Theorem C1_cap_one_runs_two_fixed_updates :
  ∃ w' : World,
    _dispatch_updates 10 (3 / 60)%float (Sample.opened (Some 1)) = Some w'
    ∧ fixed_dispatches (added (Sample.opened (Some 1)) w') = 2%nat.
Proof. eexists. split; vm_compute; reflexivity. Qed.

(** C2, evaluated: with [fixed_frame_cap = 1] and [fixed_rate = 1/60] the
    firing with delta [3/60] dispatches two fixed updates, not one, and
    keeps about [1/60] of accumulated time, not [2/60]; the next firing,
    with delta [0], dispatches one more and leaves the accumulator at 0. *)
Theorem C2_capped_frame_runs_two_fixed_updates :
  ∃ w1 w2 : World,
    _dispatch_updates 10 (3 / 60)%float (Sample.opened (Some 1)) = Some w1
    ∧ added (Sample.opened (Some 1)) w1 =
        [ Dispatch "on_fixed_update" (1 / 60)%float;
          Dispatch "on_fixed_update" (1 / 60)%float;
          Dispatch "on_update" (3 / 60)%float ]
    ∧ accumulated w1 = (3 / 60 - (1 / 60 + 1 / 60))%float
    ∧ (accumulated w1 <? 2 / 60)%float = true
    ∧ _dispatch_updates 10 0%float w1 = Some w2
    ∧ added w1 w2 =
        [ Dispatch "on_fixed_update" (1 / 60)%float; Dispatch "on_update" 0%float ]
    ∧ accumulated w2 = 0%float.
Proof.
  do 2 eexists.
  split; [vm_compute; reflexivity|].
  split; [vm_compute; reflexivity|].
  split; [vm_compute; reflexivity|].
  split; [vm_compute; reflexivity|].
  split; [vm_compute; reflexivity|].
  split; vm_compute; reflexivity.
Qed.

Lemma dispatch_from_zero (w : World) (fuel : nat) :
  Clock.time (_global_clock (win w)) = 0%float →
  FixedClock.time (_fixed_clock (win w)) = 0%float →
  _fixed_rate (win w) = (1 / 60)%float →
  _fixed_frame_cap (win w) = None →
  ∃ w' : World,
    _dispatch_updates (S (S (S fuel))) (1 / 30)%float w = Some w'
    ∧ log w' = log w ++ [ Dispatch "on_fixed_update" (1 / 60)%float;
                          Dispatch "on_fixed_update" (1 / 60)%float;
                          Dispatch "on_update" (1 / 30)%float ]
    ∧ accumulated w' = 0%float.
Proof.
  destruct w as [id [wd ht vp [gt gd] [ft fr] ur dr r cap cv ets st] vs cw ci lg]; simpl.
  intros -> -> -> ->. eexists. split; [cbn; reflexivity|].
  split; [|reflexivity]. cbn. by rewrite <- !app_assoc.
Qed.

Lemma Window_setup_clocks (id : WindowId) (h : Host) (a : WindowArgs) :
  let x := win (Window_setup id h a) in
  _global_clock x = Clock.init
  ∧ _fixed_clock x = FixedClock.init (arg_fixed_rate a)
  ∧ _fixed_rate x = arg_fixed_rate a
  ∧ _fixed_frame_cap x = arg_fixed_frame_cap a
  ∧ _current_view x = None.
Proof. unfold Window_setup. by destruct (arg_enable_polling a), (headless h). Qed.

(** C3, as amended: on a newly constructed window, both clocks at 0, made
    with no [fixed_frame_cap] and [fixed_rate = 1/60], the first firing of
    the update trigger, with frame delta [1/30], returns (any fuel from 3
    on is enough), dispatches exactly two fixed updates and then the one
    variable update, and leaves the accumulator at exactly 0. *)
Theorem C3_two_fixed_updates_then_update
    (id : WindowId) (h : Host) (a : WindowArgs) (fuel : nat) :
  gl_config_available h = true →
  arg_fixed_rate a = (1 / 60)%float →
  arg_fixed_frame_cap a = None →
  (3 ≤ fuel)%nat →
  ∃ w w' : World,
    Window_init id h a = Constructed w
    ∧ _dispatch_updates fuel (1 / 30)%float w = Some w'
    ∧ added w w' = [ Dispatch "on_fixed_update" (1 / 60)%float;
                     Dispatch "on_fixed_update" (1 / 60)%float;
                     Dispatch "on_update" (1 / 30)%float ]
    ∧ fixed_dispatches (added w w') = 2%nat
    ∧ accumulated w' = 0%float.
Proof.
  intros Hgl Hrate Hcap Hfuel.
  destruct (Window_setup_clocks id h a) as (Hg & Hf & Hr & Hc & _).
  destruct fuel as [|[|[|fuel]]]; try lia.
  destruct (dispatch_from_zero (Window_setup id h a) fuel) as (w' & Hrun & Hlog & Hacc).
  { by rewrite Hg. } { by rewrite Hf. } { congruence. } { congruence. }
  exists (Window_setup id h a), w'. unfold Window_init. rewrite Hgl.
  apply added_app in Hlog. rewrite Hlog. done.
Qed.

Lemma C3_witness :
  ∃ w w' : World,
    Window_init 1 Sample.host (Sample.args None) = Constructed w
    ∧ _dispatch_updates 5 (1 / 30)%float w = Some w'
    ∧ added w w' = [ Dispatch "on_fixed_update" (1 / 60)%float;
                     Dispatch "on_fixed_update" (1 / 60)%float;
                     Dispatch "on_update" (1 / 30)%float ]
    ∧ fixed_dispatches (added w w') = 2%nat
    ∧ accumulated w' = 0%float.
Proof.
  apply (C3_two_fixed_updates_then_update 1 Sample.host (Sample.args None) 5);
    [reflexivity | reflexivity | reflexivity | lia].
Defined.

(** C3, the claim as written, fails on a window that has fired before: on
    the same window the second firing with frame delta [1/30] starts from
    an accumulator of exactly 0 and dispatches one fixed update, not two.
    In binary64 the fixed clock stands at [1/60 + 1/60 + 1/60] after it,
    which leaves the accumulator just under [1/60]: too little for the
    loop to go round again, and a whole step away from 0. *)
Lemma C3_second_firing_runs_one_fixed_update :
  ∃ w1 w2 : World,
    _dispatch_updates 5 (1 / 30)%float (Sample.opened None) = Some w1
    ∧ _fixed_frame_cap (win w1) = None
    ∧ _fixed_rate (win w1) = (1 / 60)%float
    ∧ accumulated w1 = 0%float
    ∧ _dispatch_updates 5 (1 / 30)%float w1 = Some w2
    ∧ added w1 w2 = [ Dispatch "on_fixed_update" (1 / 60)%float;
                      Dispatch "on_update" (1 / 30)%float ]
    ∧ fixed_dispatches (added w1 w2) = 1%nat
    ∧ accumulated w2 = ((1 / 30 + 1 / 30) - (1 / 60 + 1 / 60 + 1 / 60))%float
    ∧ (accumulated w2 <? 1 / 60)%float = true
    ∧ (1 / 120 <? accumulated w2)%float = true.
Proof.
  do 2 eexists.
  split; [vm_compute; reflexivity|].
  split; [vm_compute; reflexivity|].
  split; [vm_compute; reflexivity|].
  split; [vm_compute; reflexivity|].
  split; [vm_compute; reflexivity|].
  split; [vm_compute; reflexivity|].
  split; [vm_compute; reflexivity|].
  split; [vm_compute; reflexivity|].
  split; vm_compute; reflexivity.
Qed.

(** ** Views as [show_view] sees them *)

Lemma same_views_refl (w : World) : same_views w w.
Proof. by split. Qed.

Lemma same_views_trans (w1 w2 w3 : World) :
  same_views w1 w2 → same_views w2 w3 → same_views w1 w3.
Proof.
  intros [He1 H1] [He2 H2]. split; [congruence|]. intros v.
  destruct (H1 v) as (? & ? & ? & ?), (H2 v) as (? & ? & ? & ?).
  repeat split; intros; etrans; eauto.
Qed.

Lemma same_views_sym (w1 w2 : World) : same_views w1 w2 → same_views w2 w1.
Proof.
  intros [He H]. split; [done|]. intros v. destruct (H v) as (? & ? & ? & ?).
  repeat split; intros; symmetry; eauto.
Qed.

(** A world that kept its view store and its event types. *)
Lemma same_views_store (w1 w2 : World) :
  views w1 = views w2 → event_types (win w1) = event_types (win w2) → same_views w1 w2.
Proof.
  intros Hv He. split; [done|]. intros v.
  unfold ref_has_sections, ref_managed_events, getattr_sections, ref_hasattr.
  by rewrite Hv.
Qed.

Lemma same_views_bind_window (v : ViewId) (w : World) : same_views (bind_window v w) w.
Proof.
  unfold bind_window. destruct (views w !! v) as [V|] eqn:HV; [|apply same_views_refl].
  destruct (window V) eqn:HW; [apply same_views_refl|].
  split; [done|]. intros u.
  unfold ref_has_sections, ref_managed_events, getattr_sections, ref_hasattr. simpl.
  destruct (decide (u = v)) as [->|Hne].
  - rewrite lookup_insert_eq, HV. done.
  - rewrite lookup_insert_ne by done. done.
Qed.

Lemma section_handlers_same (w1 w2 : World) (v : ViewId) :
  same_views w1 w2 → section_handlers w1 v = section_handlers w2 v.
Proof.
  intros [_ H]. destruct (H v) as (_ & Hm & Hg & _).
  unfold section_handlers, set_to_map. rewrite Hm. f_equal.
  apply list_fmap_ext. intros _ e _. by rewrite Hg.
Qed.

Lemma managed_events_same (w1 w2 : World) (v : ViewId) :
  same_views w1 w2 →
  section_manager_managed_events w1 v = section_manager_managed_events w2 v.
Proof.
  intros [_ H]. destruct (H v) as (Hs & Hm & _).
  unfold section_manager_managed_events. by rewrite Hs, Hm.
Qed.

Lemma view_handlers_same (w1 w2 : World) (v : ViewId) :
  same_views w1 w2 → view_handlers w1 v = view_handlers w2 v.
Proof.
  intros Hsame. pose proof (managed_events_same _ _ v Hsame) as Hm.
  destruct Hsame as [He H]. destruct (H v) as (_ & _ & _ & Ha).
  unfold view_handlers. rewrite He, Hm. do 2 f_equal.
  apply list_filter_iff. intros e. by rewrite Ha.
Qed.

(** ** The phases of [show_view] *)

Lemma bind_window_log (v : ViewId) (w : World) :
  log (bind_window v w) = log w ++ bind_actions w v.
Proof.
  unfold bind_window, bind_actions.
  destruct (views w !! v) as [V|]; [destruct (window V)|]; simpl;
    by rewrite ?app_nil_r.
Qed.

Lemma bind_window_win (v : ViewId) (w : World) : win (bind_window v w) = win w.
Proof.
  unfold bind_window. by destruct (views w !! v) as [V|]; [destruct (window V)|].
Qed.

Lemma remove_previous_log (w : World) :
  log (remove_previous w) = log w ++ remove_actions w.
Proof.
  unfold remove_previous, remove_actions.
  destruct (_current_view (win w)) as [c|]; [|by rewrite app_nil_r].
  change (ref_has_sections (emit _ w) c) with (ref_has_sections w c).
  destruct (ref_has_sections w c); simpl; by rewrite <- !app_assoc.
Qed.

Lemma remove_previous_same (w : World) : same_views (remove_previous w) w.
Proof.
  apply same_views_store; unfold remove_previous;
    destruct (_current_view (win w)) as [c|]; try done;
    change (ref_has_sections (emit _ w) c) with (ref_has_sections w c);
    by destruct (ref_has_sections w c).
Qed.

Lemma push_section_handlers_log (v : ViewId) (w : World) :
  log (push_section_handlers v w) = log w ++ section_push w v.
Proof.
  unfold push_section_handlers, section_push.
  destruct (ref_has_sections w v); [|by rewrite app_nil_r]. simpl.
  destruct (bool_decide _); [done|by rewrite app_nil_r].
Qed.

Lemma push_section_handlers_same (v : ViewId) (w : World) :
  same_views (push_section_handlers v w) w.
Proof.
  apply same_views_store; unfold push_section_handlers;
    destruct (ref_has_sections w v); try done; by destruct (bool_decide _).
Qed.

Lemma push_section_handlers_current (v : ViewId) (w : World) :
  _current_view (win (push_section_handlers v w)) = _current_view (win w).
Proof.
  unfold push_section_handlers.
  destruct (ref_has_sections w v); try done; by destruct (bool_decide _).
Qed.

Lemma push_view_handlers_log (v : ViewId) (w : World) :
  log (push_view_handlers v w) = log w ++ view_push w v.
Proof.
  unfold push_view_handlers, view_push.
  destruct (bool_decide _); [done|by rewrite app_nil_r].
Qed.

Lemma push_view_handlers_same (v : ViewId) (w : World) :
  same_views (push_view_handlers v w) w.
Proof.
  apply same_views_store; unfold push_view_handlers; by destruct (bool_decide _).
Qed.

Lemma push_view_handlers_current (v : ViewId) (w : World) :
  _current_view (win (push_view_handlers v w)) = _current_view (win w).
Proof. unfold push_view_handlers. by destruct (bool_decide _). Qed.

Lemma shown_hooks_log (v : ViewId) (w : World) :
  _current_view (win w) = Some v →
  log (shown_hooks w) = log w ++ shown_actions w v.
Proof.
  intros Hc. unfold shown_hooks, shown_actions. rewrite Hc.
  change (ref_has_sections (emit _ (emit _ w)) v) with (ref_has_sections w v).
  destruct (ref_has_sections w v); simpl; by rewrite <- !app_assoc.
Qed.

Lemma shown_hooks_win (w : World) : win (shown_hooks w) = win w.
Proof.
  unfold shown_hooks. destruct (_current_view (win w)) as [c|]; [|done].
  by destruct (ref_has_sections _ c).
Qed.

Lemma section_push_same (w1 w2 : World) (v : ViewId) :
  same_views w1 w2 → section_push w1 v = section_push w2 v.
Proof.
  intros Hsame. unfold section_push.
  rewrite (section_handlers_same _ _ v Hsame).
  destruct Hsame as [_ H]. destruct (H v) as (-> & _). done.
Qed.

Lemma view_push_same (w1 w2 : World) (v : ViewId) :
  same_views w1 w2 → view_push w1 v = view_push w2 v.
Proof. intros Hsame. unfold view_push. by rewrite (view_handlers_same _ _ v Hsame). Qed.

Lemma shown_actions_same (w1 w2 : World) (v : ViewId) :
  same_views w1 w2 → shown_actions w1 v = shown_actions w2 v.
Proof. intros [_ H]. unfold shown_actions. destruct (H v) as (-> & _). done. Qed.

Lemma remove_actions_same (w1 w2 : World) :
  same_views w1 w2 →
  _current_view (win w1) = _current_view (win w2) →
  remove_actions w1 = remove_actions w2.
Proof.
  intros [_ H] Hc. unfold remove_actions. rewrite Hc.
  destruct (_current_view (win w2)) as [c|]; [|done].
  destruct (H c) as (-> & _). done.
Qed.

(** What a successful [show_view] does, in program order. *)
Lemma show_view_log (x : pyval) (v : ViewId) (w : World) :
  as_view w x = Some v →
  ∃ w' : World,
    show_view x w = Ok w'
    ∧ log w' = log w
        ++ [ScreenUse; SetViewport (0, 0, width (win w), height (win w))]
        ++ bind_actions w v ++ remove_actions w
        ++ [SetCurrentView (Some v)]
        ++ section_push w v ++ view_push w v ++ shown_actions w v
    ∧ _current_view (win w') = Some v
    ∧ same_views w' w.
Proof.
  intros Hv. unfold show_view. rewrite Hv.
  set (vp := (0, 0, width (win (emit ScreenUse w)), height (win (emit ScreenUse w)))).
  set (w2 := emit (SetViewport vp) (set_win (with_viewport vp) (emit ScreenUse w))).
  set (w3 := bind_window v w2).
  set (w4 := remove_previous w3).
  set (w5 := set_current_view (Some v) w4).
  set (w6 := push_section_handlers v w5).
  set (w7 := push_view_handlers v w6).
  assert (same_views w2 w) as H2 by by apply same_views_store.
  assert (same_views w3 w) as H3
    by (eapply same_views_trans; [apply same_views_bind_window|done]).
  assert (same_views w4 w) as H4
    by (eapply same_views_trans; [apply remove_previous_same|done]).
  assert (same_views w5 w) as H5
    by (eapply same_views_trans; [by apply same_views_store|done]).
  assert (same_views w6 w) as H6
    by (eapply same_views_trans; [apply push_section_handlers_same|done]).
  assert (same_views w7 w) as H7
    by (eapply same_views_trans; [apply push_view_handlers_same|done]).
  assert (_current_view (win w7) = Some v) as Hc7.
  { unfold w7, w6. by rewrite push_view_handlers_current, push_section_handlers_current. }
  eexists. split; [done|]. split; [|split].
  - rewrite (shown_hooks_log v) by done.
    unfold w7. rewrite push_view_handlers_log.
    unfold w6. rewrite push_section_handlers_log.
    change (log w5) with (log w4 ++ [SetCurrentView (Some v)]).
    unfold w4. rewrite remove_previous_log.
    unfold w3. rewrite bind_window_log.
    change (log w2) with ((log w ++ [ScreenUse]) ++ [SetViewport vp]).
    fold w3 w4 w5 w6 w7.
    rewrite (shown_actions_same _ _ v H7), (view_push_same _ _ v H6),
      (section_push_same _ _ v H5).
    rewrite (remove_actions_same w3 w H3)
      by (unfold w3; by rewrite bind_window_win).
    replace (bind_actions w2 v) with (bind_actions w v) by done.
    rewrite <- !app_assoc. done.
  - by rewrite shown_hooks_win.
  - eapply same_views_trans; [|exact H7].
    apply same_views_store; [|by rewrite shown_hooks_win].
    unfold shown_hooks. destruct (_current_view (win w7)) as [c|]; [|done].
    by destruct (ref_has_sections _ c).
Qed.

Lemma as_view_Some (w : World) (x : pyval) (v : ViewId) :
  as_view w x = Some v ↔ x = PyView v ∧ is_Some (views w !! v).
Proof.
  split.
  - destruct x; simpl; try done. destruct (views w !! v0) eqn:E; [|done].
    intros [= <-]. by rewrite E.
  - intros [-> [V HV]]. simpl. by rewrite HV.
Qed.

Lemma show_view_Ok_inv (x : pyval) (w w' : World) :
  show_view x w = Ok w' → ∃ v, as_view w x = Some v.
Proof. unfold show_view. destruct (as_view w x); [eauto|done]. Qed.

(** ** The frames [show_view] pushes *)

Lemma view_handlers_lookup (w : World) (v : ViewId) (e : string) (h : Handler) :
  view_handlers w v !! e = Some h ↔
    h = HBound (OView v) e
    ∧ e ∈ event_types (win w)
    ∧ (e ≠ "on_show"%string)
    ∧ (e ∉ section_manager_managed_events w v)
    ∧ ref_hasattr w v e = true.
Proof.
  unfold view_handlers. split.
  - intros Hl%elem_of_list_to_map_2.
    apply list_elem_of_fmap in Hl as (e' & [= -> ->] & He).
    apply list_elem_of_filter in He as [(? & ? & ?) ?]. done.
  - intros (-> & He & H1 & H2 & H3). apply elem_of_list_to_map_1'.
    + intros y (e' & [= <- ->] & _)%list_elem_of_fmap. done.
    + apply list_elem_of_fmap. exists e. split; [done|].
      apply list_elem_of_filter. done.
Qed.

Lemma section_handlers_lookup (w : World) (v : ViewId) (e : string) (h : Handler) :
  section_handlers w v !! e = Some h ↔
    e ∈ ref_managed_events w v ∧ h = getattr_sections w v e.
Proof.
  unfold section_handlers. rewrite lookup_set_to_map.
  - split; [intros (y & Hy & [= -> ->]); done|intros [? ->]; eauto].
  - intros y y' _ _ Heq. done.
Qed.

(** ** The show protocol *)

(** C5: handed a value that is not a View, [show_view] raises [TypeError]
    and the world it leaves is the world it found: [current_view], the
    handler stack and the view store are untouched and nothing was logged,
    so no hook of the view on show was called. *)
Theorem C5_show_view_type_error (x : pyval) (w : World) :
  as_view w x = None →
  show_view x w = Raise TypeError w.
Proof. intros Hx. unfold show_view. by rewrite Hx. Qed.

Lemma C5_witness :
  show_view (PyInt 3) Sample.world = Raise TypeError Sample.world.
Proof. apply (C5_show_view_type_error (PyInt 3) Sample.world). reflexivity. Defined.

Lemma Sample_show_sectioned :
  ∃ w' : World,
    show_view (PyView 8) Sample.world = Ok w'
    ∧ added Sample.world w' =
        [ ScreenUse; SetViewport (0, 0, 1280, 720); SetCurrentView (Some 8%nat);
          PushHandlers (section_handlers Sample.world 8);
          PushHandlers (view_handlers Sample.world 8);
          Call (OView 8) "on_show"; Call (OView 8) "on_show_view";
          Call (OSections 8) "on_show_view" ].
Proof.
  assert (as_view Sample.world (PyView 8) = Some 8%nat) as Hv by reflexivity.
  destruct (show_view_log (PyView 8) 8 Sample.world Hv) as (w' & Hok & Hlog & _).
  exists w'. split; [done|]. apply added_app. rewrite Hlog.
  assert (section_push Sample.world 8 = [PushHandlers (section_handlers Sample.world 8)])
    as ->.
  { unfold section_push.
    assert (ref_has_sections Sample.world 8
            && bool_decide (section_handlers Sample.world 8 ≠ ∅) = true) as ->
      by (vm_compute; reflexivity).
    done. }
  assert (view_push Sample.world 8 = [PushHandlers (view_handlers Sample.world 8)]) as ->.
  { unfold view_push.
    assert (bool_decide (view_handlers Sample.world 8 ≠ ∅) = true) as ->
      by (vm_compute; reflexivity).
    done. }
  assert (bind_actions Sample.world 8 = []) as -> by (vm_compute; reflexivity).
  assert (remove_actions Sample.world = []) as -> by (vm_compute; reflexivity).
  assert (shown_actions Sample.world 8 = [Call (OView 8) "on_show"; Call (OView 8) "on_show_view";
          Call (OSections 8) "on_show_view" ]) as -> by (vm_compute; reflexivity).
  assert (width (win Sample.world) = 1280) as -> by (vm_compute; reflexivity).
  assert (height (win Sample.world) = 720) as -> by (vm_compute; reflexivity).
  reflexivity.
Qed.

(** C4, refuted as stated: showing the sectioned sample view, the window
    assigns [current_view] third and pushes the handlers fourth and fifth,
    so the pushes do not come before the assignment. *)
Lemma C4_current_view_set_before_pushes :
  ∃ w' : World,
    show_view (PyView 8) Sample.world = Ok w'
    ∧ ¬ pushes_before_current_view 8 (added Sample.world w').
Proof.
  destruct Sample_show_sectioned as (w' & Hok & Hadded).
  exists w'. split; [done|]. rewrite Hadded. intros Horder.
  specialize (Horder 3%nat 2%nat _ eq_refl eq_refl). lia.
Qed.

Lemma bind_actions_no_push (w : World) (v : ViewId) :
  Forall (fun a => ¬ is_push a) (bind_actions w v).
Proof.
  unfold bind_actions. destruct (views w !! v) as [V|]; [destruct (window V)|];
    repeat constructor; simpl; tauto.
Qed.

Lemma remove_actions_no_push (w : World) :
  Forall (fun a => ¬ is_push a) (remove_actions w).
Proof.
  unfold remove_actions. destruct (_current_view (win w)) as [c|]; [|constructor].
  destruct (ref_has_sections w c); repeat constructor; simpl; tauto.
Qed.

(** C4, as the code has it: a successful [show_view(V)] first unbinds the
    view shown so far, then sets [current_view] to [V] (step e), and only
    then pushes the SectionManager's handlers (step c) and after them [V]'s
    own (step d): one handler for each recognised event name other than
    "on_show" that the manager does not handle and that [V] defines.  The
    shown hooks (step f) come last: [on_show], [on_show_view], and the
    manager's [on_show_view] if [V] has sections. *)
Theorem C4_show_view_order (x : pyval) (w w' : World) :
  show_view x w = Ok w' →
  ∃ (v : ViewId) (before : list Action),
    as_view w x = Some v
    ∧ added w w' =
        before ++ [SetCurrentView (Some v)]
        ++ section_push w v ++ view_push w v ++ shown_actions w v
    ∧ Forall (fun a => ¬ is_push a) before
    ∧ _current_view (win w') = Some v
    ∧ (∀ e h, view_handlers w v !! e = Some h ↔
         h = HBound (OView v) e
         ∧ e ∈ event_types (win w)
         ∧ (e ≠ "on_show"%string)
         ∧ (e ∉ section_manager_managed_events w v)
         ∧ ref_hasattr w v e = true).
Proof.
  intros Hok. destruct (show_view_Ok_inv _ _ _ Hok) as [v Hv].
  destruct (show_view_log x v w Hv) as (w'' & Hok' & Hlog & Hcur & _).
  rewrite Hok in Hok'. injection Hok' as <-.
  exists v, ([ScreenUse; SetViewport (0, 0, width (win w), height (win w))]
             ++ bind_actions w v ++ remove_actions w).
  split; [done|]. split; [|split; [|split]].
  - apply added_app. rewrite Hlog. by rewrite <- !app_assoc.
  - apply Forall_app. split; [repeat constructor; simpl; tauto|].
    apply Forall_app. split; [apply bind_actions_no_push|apply remove_actions_no_push].
  - done.
  - apply view_handlers_lookup.
Qed.

Lemma C4_witness :
  ∃ (w' : World) (v : ViewId) (before : list Action),
    show_view (PyView 7) Sample.world = Ok w'
    ∧ as_view Sample.world (PyView 7) = Some v
    ∧ added Sample.world w' =
        before ++ [SetCurrentView (Some v)]
        ++ section_push Sample.world v ++ view_push Sample.world v
        ++ shown_actions Sample.world v
    ∧ Forall (fun a => ¬ is_push a) before
    ∧ _current_view (win w') = Some v
    ∧ (∀ e h, view_handlers Sample.world v !! e = Some h ↔
         h = HBound (OView v) e
         ∧ e ∈ event_types (win Sample.world)
         ∧ (e ≠ "on_show"%string)
         ∧ (e ∉ section_manager_managed_events Sample.world v)
         ∧ ref_hasattr Sample.world v e = true).
Proof.
  assert (as_view Sample.world (PyView 7) = Some 7%nat) as Hv by reflexivity.
  destruct (show_view_log (PyView 7) 7 Sample.world Hv) as (w' & Hok & _).
  destruct (C4_show_view_order (PyView 7) Sample.world w' Hok) as (v & before & H).
  exists w', v, before. split; [exact Hok|exact H].
Defined.

(** ** The handler stack *)

Lemma remove_from_stack_elem (o : Owner) (s : list (gmap string Handler))
    (frame : gmap string Handler) (e : string) (h : Handler) :
  frame ∈ pyglet.remove_from_stack o s →
  frame !! e = Some h →
  ¬ pyglet.owned_by o h ∧ ∃ frame0, frame0 ∈ s ∧ frame0 !! e = Some h.
Proof.
  unfold pyglet.remove_from_stack, pyglet.strip.
  intros [_ (frame0 & -> & Hin)%list_elem_of_fmap]%list_elem_of_filter Hl.
  apply map_lookup_filter_Some in Hl as [Hl Hno]. eauto.
Qed.

Lemma reached_elem (e : string) (w : World) (h : Handler) :
  h ∈ pyglet.reached e w ↔
    (∃ frame, frame ∈ _event_stack (win w) ∧ frame !! e = Some h)
    ∨ h = HBound OWindow e.
Proof.
  unfold pyglet.reached. rewrite elem_of_app, list_elem_of_omap, list_elem_of_singleton.
  done.
Qed.

Lemma view_level_inv (h : Handler) :
  view_level h →
  ∃ u, handler_owner h = Some (OView u) ∨ handler_owner h = Some (OSections u).
Proof.
  unfold view_level. destruct (handler_owner h) as [[| | |u|u]|]; try done; eauto.
Qed.

(** Where a frame of the cleared stack comes from, and what was taken out. *)
Lemma cleared_stack_elem (w : World) (frame : gmap string Handler)
    (e : string) (h : Handler) :
  frame ∈ cleared_stack w →
  frame !! e = Some h →
  (∃ frame0, frame0 ∈ _event_stack (win w) ∧ frame0 !! e = Some h)
  ∧ ∀ c, _current_view (win w) = Some c →
         handler_owner h ≠ Some (OView c)
         ∧ (ref_has_sections w c = true → handler_owner h ≠ Some (OSections c)).
Proof.
  unfold cleared_stack. intros Hin Hl.
  destruct (_current_view (win w)) as [c|] eqn:Hc; [|split; [eauto|done]].
  apply remove_from_stack_elem with (e := e) (h := h) in Hin as [Hnv (f1 & Hin1 & Hl1)];
    [|done].
  destruct (ref_has_sections w c) eqn:Hs.
  - apply remove_from_stack_elem with (e := e) (h := h) in Hin1
      as [Hns (f0 & Hin0 & Hl0)]; [|done].
    split; [eauto|]. intros ? [= <-]. split; [exact Hnv|intros _; exact Hns].
  - split; [eauto|]. intros ? [= <-]. split; [exact Hnv|congruence].
Qed.

Lemma cleared_stack_window_level (w : World) (frame : gmap string Handler)
    (e : string) (h : Handler) :
  stack_ok w →
  frame ∈ cleared_stack w →
  frame !! e = Some h →
  ¬ view_level h.
Proof.
  unfold stack_ok. rewrite Forall_forall. intros Hok Hin Hl Hview.
  destruct (cleared_stack_elem w frame e h Hin Hl) as [(f0 & Hin0 & Hl0) Hout].
  pose proof (Hok f0 Hin0 e h Hl0) as Hreg. unfold registered_ok in Hreg.
  destruct (view_level_inv h Hview) as [u [Hu|Hu]]; rewrite Hu in Hreg.
  - destruct (Hout u Hreg) as [Hno _]. done.
  - destruct Hreg as [Hc Hs]. destruct (Hout u Hc) as [_ Hno]. by apply Hno.
Qed.

Lemma remove_previous_stack (w : World) :
  _event_stack (win (remove_previous w)) = cleared_stack w.
Proof.
  unfold remove_previous, cleared_stack.
  destruct (_current_view (win w)) as [c|]; [|done].
  change (ref_has_sections (emit _ w) c) with (ref_has_sections w c).
  by destruct (ref_has_sections w c).
Qed.

Lemma remove_previous_current (w : World) :
  _current_view (win (remove_previous w)) = _current_view (win w).
Proof.
  unfold remove_previous. destruct (_current_view (win w)) as [c|] eqn:Hc; [|done].
  change (ref_has_sections (emit _ w) c) with (ref_has_sections w c).
  by destruct (ref_has_sections w c).
Qed.

Lemma push_section_handlers_stack (v : ViewId) (w : World) :
  _event_stack (win (push_section_handlers v w))
  = frames_of (section_push w v) ++ _event_stack (win w).
Proof.
  unfold push_section_handlers, section_push.
  destruct (ref_has_sections w v); [|done]. simpl.
  by destruct (bool_decide _).
Qed.

Lemma push_view_handlers_stack (v : ViewId) (w : World) :
  _event_stack (win (push_view_handlers v w))
  = frames_of (view_push w v) ++ _event_stack (win w).
Proof. unfold push_view_handlers, view_push. by destruct (bool_decide _). Qed.

Lemma cleared_stack_same (w1 w2 : World) :
  same_views w1 w2 → win w1 = win w2 → cleared_stack w1 = cleared_stack w2.
Proof.
  intros [_ H] Hw. unfold cleared_stack. rewrite Hw.
  destruct (_current_view (win w2)) as [c|]; [|done].
  destruct (H c) as (-> & _). done.
Qed.

(** The stack a successful [show_view] leaves: the view's frame on the
    section manager's frame on what was left of the stack. *)
Lemma show_view_stack (x : pyval) (v : ViewId) (w w' : World) :
  as_view w x = Some v →
  show_view x w = Ok w' →
  _event_stack (win w')
  = frames_of (view_push w v) ++ frames_of (section_push w v) ++ cleared_stack w.
Proof.
  intros Hv. unfold show_view. rewrite Hv.
  set (vp := (0, 0, width (win (emit ScreenUse w)), height (win (emit ScreenUse w)))).
  set (w2 := emit (SetViewport vp) (set_win (with_viewport vp) (emit ScreenUse w))).
  set (w3 := bind_window v w2).
  set (w4 := remove_previous w3).
  set (w5 := set_current_view (Some v) w4).
  set (w6 := push_section_handlers v w5).
  intros [= <-].
  assert (same_views w2 w) as H2 by by apply same_views_store.
  assert (same_views w3 w) as H3
    by (eapply same_views_trans; [apply same_views_bind_window|done]).
  assert (same_views w4 w) as H4
    by (eapply same_views_trans; [apply remove_previous_same|done]).
  assert (same_views w5 w) as H5
    by (eapply same_views_trans; [by apply same_views_store|done]).
  assert (same_views w6 w) as H6
    by (eapply same_views_trans; [apply push_section_handlers_same|done]).
  rewrite shown_hooks_win, push_view_handlers_stack.
  rewrite (view_push_same _ _ v H6). f_equal.
  unfold w6. rewrite push_section_handlers_stack, (section_push_same _ _ v H5). f_equal.
  change (_event_stack (win w5)) with (_event_stack (win w4)).
  unfold w4. rewrite remove_previous_stack.
  assert (cleared_stack w3 = cleared_stack w2) as ->
    by (apply cleared_stack_same; [apply same_views_bind_window|apply bind_window_win]).
  unfold cleared_stack. simpl.
  destruct (_current_view (win w)) as [c|]; [|done].
  by replace (ref_has_sections w2 c) with (ref_has_sections w c).
Qed.

Lemma frames_of_section_push (w : World) (v : ViewId) (frame : gmap string Handler) :
  frame ∈ frames_of (section_push w v) →
  frame = section_handlers w v ∧ ref_has_sections w v = true.
Proof.
  unfold section_push. destruct (ref_has_sections w v); simpl; [|by intros ?%elem_of_nil].
  destruct (bool_decide _); [|by intros ?%elem_of_nil].
  by intros ->%list_elem_of_singleton.
Qed.

Lemma frames_of_view_push (w : World) (v : ViewId) (frame : gmap string Handler) :
  frame ∈ frames_of (view_push w v) → frame = view_handlers w v.
Proof.
  unfold view_push. destruct (bool_decide _); [|by intros ?%elem_of_nil].
  by intros ->%list_elem_of_singleton.
Qed.






(** ** The hide protocol *)

Lemma hide_view_active (w : World) (c : ViewId) :
  _current_view (win w) = Some c →
  ∃ w' : World,
    hide_view w = Ok w'
    ∧ log w' = log w ++ hide_actions w c
    ∧ _event_stack (win w') = cleared_stack w
    ∧ _current_view (win w') = None.
Proof.
  intros Hc. unfold hide_view, hide_actions, cleared_stack. rewrite Hc.
  change (ref_has_sections (emit _ w) c) with (ref_has_sections w c).
  eexists. split; [done|].
  destruct (ref_has_sections w c); simpl; rewrite <- !app_assoc; done.
Qed.

Lemma ref_has_sections_present (w : World) (c : ViewId) :
  ref_has_sections w c = true ↔ sections_present w c.
Proof.
  unfold ref_has_sections, has_sections, sections_present.
  destruct (views w !! c) as [V|]; [|done].
  by destruct (_section_manager V).
Qed.



(** ** The invariant of the stack *)

Lemma window_level_registered (w : World) (h : Handler) :
  ¬ view_level h → registered_ok w h.
Proof.
  unfold view_level, registered_ok. destruct (handler_owner h) as [[]|]; tauto.
Qed.

(** [stack_ok] only reads the stack, the view on show and whether it has
    sections. *)
Lemma stack_ok_transfer (w1 w2 : World) :
  _event_stack (win w1) = _event_stack (win w2) →
  _current_view (win w1) = _current_view (win w2) →
  (∀ v, ref_has_sections w1 v = true → ref_has_sections w2 v = true) →
  stack_ok w1 → stack_ok w2.
Proof.
  unfold stack_ok. intros <- Hc Hs Hok.
  eapply Forall_impl; [exact Hok|]. intros frame Hframe.
  eapply map_Forall_impl; [exact Hframe|]. intros e h.
  unfold registered_ok. rewrite <- Hc.
  destruct (handler_owner h) as [[]|]; intuition auto.
Qed.

Lemma object_handlers_lookup (o : Owner) (events : gset string) (e : string) (h : Handler) :
  object_handlers o events !! e = Some h → h = HBound o e.
Proof.
  unfold object_handlers. rewrite lookup_set_to_map.
  - by intros (y & _ & [= -> ->]).
  - intros y y' _ _ Heq. done.
Qed.

Lemma stack_ok_Window_setup (id : WindowId) (h : Host) (a : WindowArgs) :
  stack_ok (Window_setup id h a).
Proof.
  assert (∀ e x, ({[ "on_resize"%string := HBound OWindow "_on_resize" ]}
                   : gmap string Handler) !! e = Some x → registered_ok
                     (Window_setup id h a) x) as Hresize.
  { intros e x [_ <-]%lookup_singleton_Some. done. }
  assert (∀ o, o = OKeyboard ∨ o = OMouse → ∀ events e x,
            object_handlers o events !! e = Some x →
            registered_ok (Window_setup id h a) x) as Hobj.
  { intros o Ho events e x ->%object_handlers_lookup.
    apply window_level_registered. unfold view_level. simpl. destruct Ho as [-> | ->]; tauto. }
  unfold stack_ok.
  assert (_event_stack (win (Window_setup id h a)) =
          (if arg_enable_polling a then
             if headless h then [object_handlers OKeyboard (keyboard_events h)]
             else [object_handlers OMouse (mouse_events h)
                   ∪ object_handlers OKeyboard (keyboard_events h)]
           else [])
          ++ [{[ "on_resize"%string := HBound OWindow "_on_resize" ]}]) as ->.
  { unfold Window_setup. by destruct (arg_enable_polling a), (headless h). }
  apply Forall_app. split; [|by repeat constructor].
  destruct (arg_enable_polling a); [|constructor].
  destruct (headless h); repeat constructor.
  - intros e x. apply Hobj. by left.
  - intros e x [Hl|[_ Hl]]%lookup_union_Some_raw.
    + exact (Hobj OMouse (or_intror eq_refl) _ _ _ Hl).
    + exact (Hobj OKeyboard (or_introl eq_refl) _ _ _ Hl).
Qed.

Lemma stack_ok_new_view (v : ViewId) (V : View) (w : World) :
  views w !! v = None → stack_ok w → stack_ok (set_views (insert v V) w).
Proof.
  intros Hfresh. apply stack_ok_transfer; [done|done|].
  intros u. unfold ref_has_sections. simpl.
  destruct (decide (u = v)) as [->|Hne].
  - by rewrite Hfresh.
  - by rewrite lookup_insert_ne.
Qed.

Lemma stack_ok_show_view (x : pyval) (w w' : World) :
  stack_ok w → show_view x w = Ok w' → stack_ok w'.
Proof.
  intros Hstack Hok. destruct (show_view_Ok_inv _ _ _ Hok) as [v Hv].
  destruct (show_view_log x v w Hv) as (w'' & Hok' & _ & Hcur & [_ Hsame]).
  rewrite Hok in Hok'. injection Hok' as <-.
  unfold stack_ok. rewrite (show_view_stack _ _ _ _ Hv Hok).
  rewrite !Forall_app, !Forall_forall. split; [|split].
  - intros frame ->%frames_of_view_push e h (-> & _)%view_handlers_lookup. done.
  - intros frame [-> Hs]%frames_of_section_push e h [_ ->]%section_handlers_lookup.
    unfold getattr_sections. destruct (views w !! v) as [V|]; [|done].
    destruct (bool_decide _); [|done].
    split; [done|]. destruct (Hsame v) as (-> & _). done.
  - intros frame Hin e h Hl. apply window_level_registered.
    by eapply cleared_stack_window_level.
Qed.

Lemma stack_ok_hide_view (w w' : World) :
  stack_ok w → hide_view w = Ok w' → stack_ok w'.
Proof.
  intros Hstack Hok. destruct (_current_view (win w)) as [c|] eqn:Hc.
  - destruct (hide_view_active w c Hc) as (w'' & Hok' & _ & Hst & _).
    rewrite Hok in Hok'. injection Hok' as <-.
    unfold stack_ok. rewrite Hst, Forall_forall. intros frame Hin e h Hl.
    apply window_level_registered. by eapply cleared_stack_window_level.
  - unfold hide_view in Hok. rewrite Hc in Hok. by injection Hok as <-.
Qed.

Lemma fixed_updates_binding (fuel : nat) :
  ∀ (fixed_count : Z) (w w' : World),
    fixed_updates fuel fixed_count w = Some w' →
    _event_stack (win w') = _event_stack (win w)
    ∧ _current_view (win w') = _current_view (win w)
    ∧ views w' = views w.
Proof.
  induction fuel as [|fuel IH]; intros fixed_count w w'; simpl; [done|].
  destruct (fixed_update_due fixed_count w); [|by intros [= <-]].
  intros Hrun. destruct (IH _ _ _ Hrun) as (-> & -> & ->).
  by destruct w as [? [] ? ? ? ?].
Qed.

Lemma stack_ok_dispatch_updates (fuel : nat) (delta_time : float) (w w' : World) :
  stack_ok w → _dispatch_updates fuel delta_time w = Some w' → stack_ok w'.
Proof.
  intros Hstack. unfold _dispatch_updates.
  destruct (fixed_updates fuel 0 _) as [w1|] eqn:Hrun; [|done]. intros [= <-].
  destruct (fixed_updates_binding _ _ _ _ Hrun) as (Hs & Hc & Hv).
  revert Hstack. apply stack_ok_transfer.
  - simpl. rewrite Hs. by destruct w as [? [] ? ? ? ?].
  - simpl. rewrite Hc. by destruct w as [? [] ? ? ? ?].
  - intros v. unfold ref_has_sections. simpl. rewrite Hv. by destruct w as [? [] ? ? ? ?].
Qed.

(** The stack of every reachable world holds only registered handlers:
    window-level ones, and those of the view on show and of its section
    manager. *)
Theorem reachable_stack_ok (w : World) : reachable w → stack_ok w.
Proof.
  induction 1 as [id h a w Hinit| | | | | | |].
  - unfold Window_init in Hinit. destruct (gl_config_available h); [|done].
    injection Hinit as <-. apply stack_ok_Window_setup.
  - by apply stack_ok_new_view.
  - by eapply stack_ok_show_view.
  - by eapply stack_ok_hide_view.
  - by eapply stack_ok_dispatch_updates.
  - revert IHreachable. apply stack_ok_transfer; by destruct w as [? [] ? ? ? ?].
  - revert IHreachable. apply stack_ok_transfer; by destruct w as [? [] ? ? ? ?].
  - revert IHreachable. apply stack_ok_transfer; by destruct w as [? [] ? ? ? ?].
Qed.


(** ** Closing the window *)

Lemma scheduled_unschedule (cb cb0 : Callback) (w : World) :
  pyglet.scheduled cb (pyglet.unschedule cb0 w) ↔ cb ≠ cb0 ∧ pyglet.scheduled cb w.
Proof.
  unfold pyglet.scheduled, pyglet.unschedule. simpl.
  rewrite !list_elem_of_fmap. split.
  - intros ([cb' r] & -> & [Hne Hin]%list_elem_of_filter). split; [done|]. by exists (cb', r).
  - intros [Hne ([cb' r] & -> & Hin)]. exists (cb', r). split; [done|].
    by apply list_elem_of_filter.
Qed.

(** C7, refuted as stated: a window whose draw rate was set and which is
    then closed still has the draw trigger on the clock. *)
Lemma C7_draw_trigger_stays_scheduled :
  pyglet.scheduled RedrawWindows
    (close (set_draw_rate (1 / 30)%float (Sample.opened None)))
  ∧ ¬ both_triggers_unscheduled
        (close (set_draw_rate (1 / 30)%float (Sample.opened None))).
Proof.
  assert (pyglet.scheduled RedrawWindows
            (close (set_draw_rate (1 / 30)%float (Sample.opened None)))) as H.
  { unfold close. apply scheduled_unschedule. split; [done|].
    unfold pyglet.scheduled. apply (bool_decide_unpack _). vm_compute. exact I. }
  split; [done|]. by intros [_ Hno].
Qed.

(** C7, as the code has it: [close] takes the update trigger of the window
    off the clock, so the clock fires no further update or fixed update for
    it, clears the global current-window reference, and leaves every other
    scheduled callback as it was: the draw trigger, pyglet's redraw
    callback, is scheduled after [close] exactly if it was before. *)
Theorem C7_close_unschedules_update_trigger (w : World) :
  ¬ pyglet.scheduled (bound_dispatch_updates w) (close w)
  ∧ (∀ cb, cb ≠ bound_dispatch_updates w →
           (pyglet.scheduled cb (close w) ↔ pyglet.scheduled cb w))
  ∧ (pyglet.scheduled RedrawWindows (close w) ↔ pyglet.scheduled RedrawWindows w)
  ∧ current_window (close w) = None
  ∧ win (close w) = win w.
Proof.
  unfold close. split; [|split; [|split; [|done]]].
  - intros [Hne _]%scheduled_unschedule. done.
  - intros cb Hne. rewrite scheduled_unschedule. tauto.
  - rewrite scheduled_unschedule. split; [by intros [_ ?]|by intros ?].
Qed.

(** ** Construction *)

(** C9, refuted as stated: a window is constructed with [fixed_rate = 0],
    and one with [fixed_rate = -1/60]; no error is raised and the rate is
    stored as given. *)
Lemma C9_nonpositive_fixed_rate_accepted :
  (∃ w : World,
     Window_init 1 Sample.host (Sample.rate_args 0%float) = Constructed w
     ∧ _fixed_rate (win w) = 0%float)
  ∧ (∃ w : World,
       Window_init 1 Sample.host (Sample.rate_args (- (1 / 60))%float) = Constructed w
       ∧ (_fixed_rate (win w) <? 0)%float = true).
Proof. split; eexists; split; reflexivity. Qed.

(** C9, as the code has it: [Window.__init__] does not look at
    [fixed_rate].  Whenever pyglet finds an OpenGL configuration the window
    is constructed, whatever the rate, and the rate is stored unchanged in
    the window and in its fixed clock; the one error the constructor raises
    is [NoOpenGLException]. *)
Theorem C9_fixed_rate_not_validated (id : WindowId) (h : Host) (a : WindowArgs) :
  (gl_config_available h = true →
   ∃ w : World,
     Window_init id h a = Constructed w
     ∧ _fixed_rate (win w) = arg_fixed_rate a
     ∧ FixedClock.fixed_rate (_fixed_clock (win w)) = arg_fixed_rate a
     ∧ _fixed_frame_cap (win w) = arg_fixed_frame_cap a)
  ∧ (∀ e, Window_init id h a = Failed e →
          e = NoOpenGLException ∧ gl_config_available h = false).
Proof.
  unfold Window_init. split.
  - intros ->. eexists. split; [done|].
    destruct (Window_setup_clocks id h a) as (_ & -> & -> & -> & _). done.
  - destruct (gl_config_available h); [done|]. by intros e [= <-].
Qed.

(** With [fixed_rate = 0] and no cap the failure comes at first use: the
    first firing of the update trigger never leaves its loop, whatever the
    fuel. *)
Lemma fixed_updates_zero_rate (fuel : nat) :
  ∀ (fixed_count : Z) (w : World),
    _fixed_rate (win w) = 0%float →
    _fixed_frame_cap (win w) = None →
    FixedClock.time (_fixed_clock (win w)) = 0%float →
    (0 <=? Clock.time (_global_clock (win w)) - 0)%float = true →
    fixed_updates fuel fixed_count w = None.
Proof.
  induction fuel as [|fuel IH]; intros fixed_count w Hr Hcap Hf Hg; [done|].
  simpl. unfold fixed_update_due, accumulated, FixedClock.accumulated.
  rewrite Hr, Hcap, Hf, Hg. simpl.
  apply IH; destruct w as [? [? ? ? ? [] ? ? ? ? ? ? ?] ? ? ? ?]; simpl in *; subst; done.
Qed.

Theorem zero_fixed_rate_never_returns
    (fuel : nat) (id : WindowId) (h : Host) (a : WindowArgs) (delta_time : float) :
  arg_fixed_rate a = 0%float →
  arg_fixed_frame_cap a = None →
  (0 <=? 0 + delta_time - 0)%float = true →
  _dispatch_updates fuel delta_time (Window_setup id h a) = None.
Proof.
  intros Hrate Hcap Hdelta.
  destruct (Window_setup_clocks id h a) as (Hg & Hf & Hr & Hc & _).
  unfold _dispatch_updates. rewrite fixed_updates_zero_rate; [done|..]; simpl.
  - by rewrite Hr.
  - by rewrite Hc.
  - by rewrite Hf.
  - by rewrite Hg.
Qed.

Lemma zero_fixed_rate_witness :
  _dispatch_updates 1000 (1 / 60)%float
    (Window_setup 1 Sample.host (Sample.rate_args 0%float)) = None.
Proof.
  apply (zero_fixed_rate_never_returns 1000 1 Sample.host (Sample.rate_args 0%float));
    reflexivity.
Defined.

Lemma show_view_views (x : pyval) (v : ViewId) (w w' : World) :
  as_view w x = Some v →
  show_view x w = Ok w' →
  views w' = views (bind_window v w).
Proof.
  intros Hv. unfold show_view. rewrite Hv.
  set (vp := (0, 0, width (win (emit ScreenUse w)), height (win (emit ScreenUse w)))).
  set (w2 := emit (SetViewport vp) (set_win (with_viewport vp) (emit ScreenUse w))).
  set (w3 := bind_window v w2).
  set (w4 := remove_previous w3).
  set (w5 := set_current_view (Some v) w4).
  set (w6 := push_section_handlers v w5).
  set (w7 := push_view_handlers v w6).
  intros [= <-].
  assert (views (shown_hooks w7) = views w7) as ->.
  { unfold shown_hooks. destruct (_current_view (win w7)) as [c|]; [|done].
    by destruct (ref_has_sections _ c). }
  assert (views w7 = views w6) as ->.
  { unfold w7, push_view_handlers. by destruct (bool_decide _). }
  assert (views w6 = views w5) as ->.
  { unfold w6, push_section_handlers.
    destruct (ref_has_sections w5 v); [|done]. by destruct (bool_decide _). }
  change (views w5) with (views w4).
  assert (views w4 = views w3) as ->.
  { unfold w4, remove_previous. destruct (_current_view (win w3)) as [c|]; [|done].
    change (ref_has_sections (emit _ w3) c) with (ref_has_sections w3 c).
    by destruct (ref_has_sections w3 c). }
  unfold w3, bind_window. change (views w2) with (views w).
  destruct (views w !! v) as [V|]; [|done]. by destruct (window V).
Qed.

(** C10, refuted as stated: whatever [arcade.get_window] does, no
    construction of a View leaves its [window] unset. *)
Lemma C10_never_constructed_unattached :
  ¬ ∃ get_window cls_attrs current window_arg V,
      View_init get_window cls_attrs current window_arg = inr V
      ∧ window V = None.
Proof.
  intros (get_window & cls_attrs & current & window_arg & V & Hinit & Hnone).
  unfold View_init in Hinit.
  destruct window_arg as [win_id|]; [|destruct (get_window current)];
    simplify_eq; done.
Qed.

(** C10, as the code has it: [View(window)] stores the window it is given
    and [View()] the one [arcade.get_window()] returns, so a View is bound
    to a window from its construction on.  [show_view] binds the view to
    the showing window only if it finds [window] unset, and leaves the
    back-reference of a view that has one as it is. *)
Theorem C10_window_bound_at_construction
    (get_window : option WindowId → exn + WindowId) (cls_attrs : gset string)
    (current window_arg : option WindowId) :
  (∀ V, View_init get_window cls_attrs current window_arg = inr V →
        ∃ win_id, window V = Some win_id
                  ∧ (window_arg = Some win_id
                     ∨ window_arg = None ∧ get_window current = inr win_id))
  ∧ (∀ v V w w', views w !! v = Some V →
                 show_view (PyView v) w = Ok w' →
                 window <$> views w' !! v
                 = Some (Some (default (self w) (window V)))).
Proof.
  split.
  - intros V. unfold View_init.
    destruct window_arg as [win_id|]; [|destruct (get_window current) eqn:E];
      intros [= <-]; eauto.
  - intros v V w w' HV Hok.
    assert (as_view w (PyView v) = Some v) as Hv by (simpl; by rewrite HV).
    rewrite (show_view_views _ _ _ _ Hv Hok). unfold bind_window. rewrite HV.
    destruct (window V) eqn:HW; simpl.
    + rewrite HV. simpl. by rewrite HW.
    + by rewrite lookup_insert_eq.
Qed.

(** ** One view at a time *)

Lemma reachable_stack_ok_witness : stack_ok (Sample.opened None).
Proof.
  apply (reachable_stack_ok (Sample.opened None)).
  apply (reach_init 1 Sample.host (Sample.args None)). reflexivity.
Defined.

Lemma reached_view_level_current (w : World) (e : string) (h : Handler) :
  stack_ok w →
  h ∈ pyglet.reached e w →
  view_level h →
  ∃ c, _current_view (win w) = Some c
       ∧ (handler_owner h = Some (OView c)
          ∨ handler_owner h = Some (OSections c) ∧ ref_has_sections w c = true).
Proof.
  unfold stack_ok. rewrite Forall_forall.
  intros Hok [(frame & Hin & Hl)| ->]%reached_elem Hview; [|done].
  pose proof (Hok frame Hin e h Hl) as Hreg. unfold registered_ok in Hreg.
  destruct (view_level_inv h Hview) as [u [Hu|Hu]]; rewrite Hu in Hreg.
  - exists u. eauto.
  - destruct Hreg as [Hc Hs]. exists u. eauto.
Qed.

(** After [show_view(A)] and then [show_view(B)], for two different views
    and from a stack of registered handlers, [B] is the view on show and
    no event reaches a handler of [A] or of [A]'s SectionManager any more:
    every handler of a View or of a SectionManager that an event reaches
    is [B]'s own or that of [B]'s manager, which then holds a section. *)
Theorem second_show_view_unbinds_first (a b : ViewId) (w w1 w2 : World) :
  stack_ok w →
  a ≠ b →
  show_view (PyView a) w = Ok w1 →
  show_view (PyView b) w1 = Ok w2 →
  _current_view (win w1) = Some a
  ∧ _current_view (win w2) = Some b
  ∧ ∀ e h, h ∈ pyglet.reached e w2 →
           handler_owner h ≠ Some (OView a)
           ∧ handler_owner h ≠ Some (OSections a)
           ∧ (view_level h →
              handler_owner h = Some (OView b)
              ∨ (handler_owner h = Some (OSections b) ∧ sections_present w2 b)).
Proof.
  intros Hstack Hne Hfirst Hsecond.
  assert (as_view w (PyView a) = Some a) as Ha.
  { destruct (show_view_Ok_inv _ _ _ Hfirst) as [v Hv].
    by apply as_view_Some in Hv as Hv'; destruct Hv' as [[= ->] _]. }
  assert (as_view w1 (PyView b) = Some b) as Hb.
  { destruct (show_view_Ok_inv _ _ _ Hsecond) as [v Hv].
    by apply as_view_Some in Hv as Hv'; destruct Hv' as [[= ->] _]. }
  destruct (show_view_log _ _ _ Ha) as (w1' & Hfirst' & _ & Hcur1 & _).
  rewrite Hfirst in Hfirst'. injection Hfirst' as <-.
  destruct (show_view_log _ _ _ Hb) as (w2' & Hsecond' & _ & Hcur2 & _).
  rewrite Hsecond in Hsecond'. injection Hsecond' as <-.
  pose proof (stack_ok_show_view _ _ _ Hstack Hfirst) as Hstack1.
  pose proof (stack_ok_show_view _ _ _ Hstack1 Hsecond) as Hstack2.
  split; [exact Hcur1|]. split; [exact Hcur2|]. intros e h Hin.
  assert (view_level h →
          handler_owner h = Some (OView b)
          ∨ (handler_owner h = Some (OSections b) ∧ sections_present w2 b)) as Hlevel.
  { intros Hview.
    destruct (reached_view_level_current w2 e h Hstack2 Hin Hview) as (c & Hc & Hown).
    rewrite Hcur2 in Hc. injection Hc as <-.
    destruct Hown as [Hown|[Hown Hs]]; [by left|right].
    split; [exact Hown|]. by apply ref_has_sections_present. }
  split; [|split; [|exact Hlevel]].
  - intros Hown. destruct Hlevel as [Hb'|[Hb' _]].
    + unfold view_level. by rewrite Hown.
    + rewrite Hown in Hb'. by injection Hb'.
    + rewrite Hown in Hb'. discriminate.
  - intros Hown. destruct Hlevel as [Hb'|[Hb' _]].
    + unfold view_level. by rewrite Hown.
    + rewrite Hown in Hb'. discriminate.
    + rewrite Hown in Hb'. by injection Hb'.
Qed.

Lemma second_show_view_witness :
  ∃ w1 w2 : World,
    show_view (PyView 8) Sample.world = Ok w1
    ∧ show_view (PyView 7) w1 = Ok w2
    ∧ _current_view (win w1) = Some 8%nat
    ∧ _current_view (win w2) = Some 7%nat
    ∧ ∀ e h, h ∈ pyglet.reached e w2 →
             handler_owner h ≠ Some (OView 8)
             ∧ handler_owner h ≠ Some (OSections 8)
             ∧ (view_level h →
                handler_owner h = Some (OView 7)
                ∨ (handler_owner h = Some (OSections 7) ∧ sections_present w2 7)).
Proof.
  destruct Sample_show_sectioned as (w1 & Hfirst & _).
  assert (as_view Sample.world (PyView 8) = Some 8%nat) as Hv by (by vm_compute).
  assert (as_view w1 (PyView 7) = Some 7%nat) as Hv1.
  { apply as_view_Some. split; [done|].
    rewrite (show_view_views (PyView 8) 8%nat Sample.world w1 Hv Hfirst).
    vm_compute. eauto. }
  destruct (show_view_log (PyView 7) 7%nat w1 Hv1) as (w2 & Hsecond & _).
  assert (stack_ok Sample.world) as Hstack
    by (apply (bool_decide_unpack _); vm_compute; exact I).
  exists w1, w2. split; [exact Hfirst|]. split; [exact Hsecond|].
  apply (second_show_view_unbinds_first 8 7 Sample.world w1 w2 Hstack);
    [lia|exact Hfirst|exact Hsecond].
Defined.

(** ** Rescheduling the triggers *)

Lemma filter_eq_filter_ne (cb cb0 : Callback) (items : list (Callback * float)) :
  filter (fun item => item.1 = cb) (filter (fun item => item.1 ≠ cb0) items)
  = if decide (cb = cb0) then [] else filter (fun item => item.1 = cb) items.
Proof.
  induction items as [|[c r] items IH]; [by destruct (decide _)|].
  rewrite (filter_cons (fun item => item.1 ≠ cb0)). simpl.
  destruct (decide (c ≠ cb0)) as [Hne|Heq].
  - rewrite !filter_cons. simpl. rewrite IH.
    destruct (decide (cb = cb0)) as [->|?]; [|done].
    by rewrite decide_False.
  - apply dec_stable in Heq as ->. rewrite IH, filter_cons. simpl.
    destruct (decide (cb = cb0)) as [->|?]; [done|]. by rewrite decide_False.
Qed.

Lemma filter_ne_idem (cb0 : Callback) (items : list (Callback * float)) (r : float) :
  filter (fun item => item.1 ≠ cb0)
    (filter (fun item => item.1 ≠ cb0) items ++ [(cb0, r)])
  = filter (fun item => item.1 ≠ cb0) items.
Proof.
  rewrite filter_app, filter_cons. simpl. rewrite decide_False by (by intros ?).
  rewrite filter_nil, app_nil_r.
  induction items as [|[c r'] items IH]; [done|].
  rewrite (filter_cons _ (c, r')). simpl. destruct (decide (c ≠ cb0)); [|done].
  rewrite filter_cons. simpl. rewrite decide_True by done. by rewrite IH.
Qed.

(** After [schedule_interval(cb0, r)] on a clock [cb0] was just taken off. *)
Lemma scheduled_rates_reschedule (cb cb0 : Callback) (r : float) (w : World) :
  scheduled_rates cb (pyglet.schedule_interval cb0 r (pyglet.unschedule cb0 w))
  = if decide (cb = cb0) then [r] else scheduled_rates cb w.
Proof.
  unfold scheduled_rates, pyglet.schedule_interval, pyglet.unschedule. simpl.
  rewrite filter_app, filter_eq_filter_ne, filter_cons. simpl.
  destruct (decide (cb = cb0)) as [->|Hne].
  - by rewrite decide_True.
  - rewrite decide_False by (by intros ?). by rewrite filter_nil, app_nil_r.
Qed.

(** However often the rates were set before, [set_update_rate(rate)]
    leaves the update trigger on the clock exactly once, at [rate], and
    [set_draw_rate(rate)] the draw trigger; neither touches the entries of
    any other callback. *)
Theorem set_rate_schedules_once (rate : float) (w : World) :
  (scheduled_rates (bound_dispatch_updates w) (set_update_rate rate w) = [rate]
   ∧ _update_rate (win (set_update_rate rate w)) = rate
   ∧ ∀ cb, cb ≠ bound_dispatch_updates w →
           scheduled_rates cb (set_update_rate rate w) = scheduled_rates cb w)
  ∧ (scheduled_rates RedrawWindows (set_draw_rate rate w) = [rate]
     ∧ _draw_rate (win (set_draw_rate rate w)) = rate
     ∧ ∀ cb, cb ≠ RedrawWindows →
             scheduled_rates cb (set_draw_rate rate w) = scheduled_rates cb w).
Proof.
  unfold set_update_rate, set_draw_rate. split; (split; [|split; [done|]]).
  - rewrite scheduled_rates_reschedule. by rewrite decide_True.
  - intros cb Hne. rewrite scheduled_rates_reschedule. by rewrite decide_False.
  - rewrite scheduled_rates_reschedule. by rewrite decide_True.
  - intros cb Hne. rewrite scheduled_rates_reschedule. by rewrite decide_False.
Qed.

(** Setting a rate twice is setting it to the last value: the first call
    leaves no trace in the world. *)
Theorem set_rate_last_wins (rate1 rate2 : float) (w : World) :
  set_update_rate rate2 (set_update_rate rate1 w) = set_update_rate rate2 w
  ∧ set_draw_rate rate2 (set_draw_rate rate1 w) = set_draw_rate rate2 w.
Proof.
  destruct w as [id [] vs cw items lg].
  unfold set_update_rate, set_draw_rate, pyglet.schedule_interval, pyglet.unschedule,
    set_clock_items, set_win, bound_dispatch_updates. simpl.
  split; f_equal; f_equal; apply filter_ne_idem.
Qed.

(** ** One firing of the update trigger, in general *)

Lemma fixed_update_binding (w : World) :
  _global_clock (win (fixed_update w)) = _global_clock (win w)
  ∧ FixedClock.time (_fixed_clock (win (fixed_update w)))
    = (FixedClock.time (_fixed_clock (win w)) + _fixed_rate (win w))%float.
Proof. by destruct w as [? [] ? ? ? ?]. Qed.

(** What a run of the loop that ends has done: [k] fixed updates, each
    moving the fixed clock on by [fixed_rate], until the loop test failed. *)
Lemma fixed_updates_run (fuel : nat) :
  ∀ (fixed_count : Z) (w w' : World),
    fixed_updates fuel fixed_count w = Some w' →
    ∃ k : nat,
      log w' = log w ++ replicate k (Dispatch "on_fixed_update" (_fixed_rate (win w)))
      ∧ fixed_update_due (fixed_count + Z.of_nat k) w' = false
      ∧ _fixed_rate (win w') = _fixed_rate (win w)
      ∧ _fixed_frame_cap (win w') = _fixed_frame_cap (win w)
      ∧ _global_clock (win w') = _global_clock (win w)
      ∧ FixedClock.time (_fixed_clock (win w'))
        = Nat.iter k (fun t => (t + _fixed_rate (win w))%float)
            (FixedClock.time (_fixed_clock (win w))).
Proof.
  induction fuel as [|fuel IH]; intros fixed_count w w'; simpl; [done|].
  destruct (fixed_update_due fixed_count w) eqn:Hdue.
  - intros Hrun. destruct (IH _ _ _ Hrun) as (k & Hlog & Hend & Hr & Hc & Hg & Ht).
    destruct (fixed_update_binding w) as [Hg1 Ht1].
    exists (S k). rewrite Hlog, Hr, Hc, Hg, Ht, fixed_update_log, fixed_update_rate,
      fixed_update_cap, Hg1, Ht1, <- app_assoc.
    split; [done|]. split; [|split; [done|split; [done|split; [done|]]]].
    + by replace (fixed_count + Z.of_nat (S k)) with (fixed_count + 1 + Z.of_nat k) by lia.
    + by rewrite Nat.iter_succ_r.
  - intros [= <-]. exists 0%nat. rewrite Z.add_0_r, app_nil_r. done.
Qed.

(** Whenever a firing of the update trigger with delta [dt] returns, it
    has ticked the global clock by [dt], dispatched some number [k] of
    fixed updates, each carrying [fixed_rate], and after all of them
    exactly one variable update carrying [dt]; the fixed clock has moved
    on by [k] steps, and the loop test fails for the state it leaves: with
    no cap, less than one step of accumulated time remains. *)
Theorem dispatch_updates_run (fuel : nat) (delta_time : float) (w w' : World) :
  _dispatch_updates fuel delta_time w = Some w' →
  ∃ k : nat,
    added w w' = replicate k (Dispatch "on_fixed_update" (_fixed_rate (win w)))
                 ++ [Dispatch "on_update" delta_time]
    ∧ update_dispatches (added w w') = [delta_time]
    ∧ _global_clock (win w') = Clock.tick delta_time (_global_clock (win w))
    ∧ FixedClock.time (_fixed_clock (win w'))
      = Nat.iter k (fun t => (t + _fixed_rate (win w))%float)
          (FixedClock.time (_fixed_clock (win w)))
    ∧ fixed_update_due (Z.of_nat k) w' = false
    ∧ (_fixed_frame_cap (win w) = None →
       (_fixed_rate (win w') <=? accumulated w')%float = false).
Proof.
  unfold _dispatch_updates.
  set (w0 := set_win _ w).
  destruct (fixed_updates fuel 0 w0) as [w1|] eqn:Hrun; [|done]. intros [= <-].
  destruct (fixed_updates_run _ _ _ _ Hrun) as (k & Hlog & Hend & Hr & Hc & Hg & Ht).
  assert (log w0 = log w
          ∧ _fixed_rate (win w0) = _fixed_rate (win w)
          ∧ _fixed_frame_cap (win w0) = _fixed_frame_cap (win w)
          ∧ _fixed_clock (win w0) = _fixed_clock (win w)
          ∧ _global_clock (win w0) = Clock.tick delta_time (_global_clock (win w)))
    as (Hl0 & Hr0 & Hc0 & Hf0 & Hg0) by by destruct w as [? [] ? ? ? ?].
  rewrite Hl0, Hr0 in Hlog. rewrite Hr0 in Hr, Ht. rewrite Hc0 in Hc.
  rewrite Hf0 in Ht. rewrite Hg0 in Hg. rewrite Z.add_0_l in Hend.
  assert (added w (pyglet.dispatch_event "on_update" delta_time w1)
          = replicate k (Dispatch "on_fixed_update" (_fixed_rate (win w)))
            ++ [Dispatch "on_update" delta_time]) as Hadded.
  { apply added_app. unfold pyglet.dispatch_event, emit. simpl.
    rewrite Hlog, <- app_assoc. done. }
  exists k. split; [done|]. split; [|split; [done|split; [done|split; [done|]]]].
  - rewrite Hadded. unfold update_dispatches. rewrite omap_app.
    assert (omap (fun a => match a with
                           | Dispatch e delta =>
                               if bool_decide (e = "on_update"%string)
                               then Some delta else None
                           | _ => None
                           end)
              (replicate k (Dispatch "on_fixed_update" (_fixed_rate (win w)))) = [])
      as ->.
    { clear. induction k as [|k IH]; [done|]. simpl. exact IH. }
    done.
  - intros Hnone. unfold fixed_update_due in Hend.
    rewrite Hc, Hnone, andb_true_r in Hend. done.
Qed.

Lemma dispatch_updates_run_witness :
  ∃ (w' : World) (k : nat),
    _dispatch_updates 5 (1 / 30)%float (Sample.opened None) = Some w'
    ∧ added (Sample.opened None) w'
      = replicate k (Dispatch "on_fixed_update" (_fixed_rate (win (Sample.opened None))))
        ++ [Dispatch "on_update" (1 / 30)%float]
    ∧ update_dispatches (added (Sample.opened None) w') = [(1 / 30)%float]
    ∧ _global_clock (win w')
      = Clock.tick (1 / 30)%float (_global_clock (win (Sample.opened None)))
    ∧ FixedClock.time (_fixed_clock (win w'))
      = Nat.iter k (fun t => (t + _fixed_rate (win (Sample.opened None)))%float)
          (FixedClock.time (_fixed_clock (win (Sample.opened None))))
    ∧ fixed_update_due (Z.of_nat k) w' = false
    ∧ (_fixed_frame_cap (win (Sample.opened None)) = None →
       (_fixed_rate (win w') <=? accumulated w')%float = false).
Proof.
  assert (∃ w', _dispatch_updates 5 (1 / 30)%float (Sample.opened None) = Some w')
    as [w' Hrun].
  { destruct (dispatch_from_zero (Sample.opened None) 2) as (w' & Hrun & _);
      try reflexivity. by exists w'. }
  destruct (dispatch_updates_run 5 (1 / 30)%float (Sample.opened None) w' Hrun) as (k & H).
  exists w', k. split; [exact Hrun|exact H].
Defined.

(** ** [Window.test] *)

Lemma dispatch_updates_capped_shape (cap : Z) (fuel : nat) (delta_time : float) (w : World) :
  _fixed_frame_cap (win w) = Some cap →
  (Z.to_nat (cap + 1) < fuel)%nat →
  ∃ (w' : World) (k : nat),
    _dispatch_updates fuel delta_time w = Some w'
    ∧ added w w' = replicate k (Dispatch "on_fixed_update" (_fixed_rate (win w)))
                   ++ [Dispatch "on_update" delta_time]
    ∧ _fixed_frame_cap (win w') = Some cap.
Proof.
  intros Hcap Hfuel. unfold _dispatch_updates.
  set (w0 := set_win _ w).
  assert (log w0 = log w
          ∧ _fixed_rate (win w0) = _fixed_rate (win w)
          ∧ _fixed_frame_cap (win w0) = _fixed_frame_cap (win w))
    as (Hl0 & Hr0 & Hc0) by by destruct w as [? [] ? ? ? ?].
  destruct (fixed_updates_capped cap fuel 0 w0) as (w1 & k & Hrun & Hlog & _).
  { by rewrite Hc0. }
  { by rewrite Z.sub_0_r. }
  rewrite Hrun. exists (pyglet.dispatch_event "on_update" delta_time w1), k.
  split; [done|]. split.
  - apply added_app. unfold pyglet.dispatch_event, emit. simpl.
    rewrite Hlog, Hl0, Hr0, <- app_assoc. done.
  - destruct (fixed_updates_run _ _ _ _ Hrun) as (_ & _ & _ & _ & Hc & _).
    change (win (pyglet.dispatch_event "on_update" delta_time w1)) with (win w1).
    by rewrite Hc, Hc0.
Qed.

Lemma draws_and_updates_app (t1 t2 : list TestStep) :
  draws_and_updates (t1 ++ t2) = draws_and_updates t1 ++ draws_and_updates t2.
Proof. unfold draws_and_updates. apply filter_app. Qed.

Lemma draws_and_updates_firing (k : nat) (rate delta : float) :
  draws_and_updates
    (ByWindow <$> (replicate k (Dispatch "on_fixed_update" rate)
                   ++ [Dispatch "on_update" delta]))
  = [ByWindow (Dispatch "on_update" delta)].
Proof.
  rewrite fmap_app, draws_and_updates_app.
  assert (draws_and_updates (ByWindow <$> replicate k (Dispatch "on_fixed_update" rate)) = [])
    as ->.
  { induction k as [|k IH]; [done|]. simpl. unfold draws_and_updates in *.
    rewrite filter_cons. simpl. exact IH. }
  done.
Qed.

Lemma test_frames_S (fuel : nat) (now : nat → float) (frames n : nat)
    (start_time : float) (trace : list TestStep) (w : World) :
  test_frames fuel now (S frames) n start_time trace w
  = match _dispatch_updates fuel (1 / 60)%float w with
    | None => None
    | Some w' =>
        test_frames fuel now frames (S n) (now n)
          ((if (now n - start_time <? 1 / 60)%float
            then (trace ++ [ByHost SwitchTo; ByHost DispatchEvents;
                            ByHost DispatchDraw; ByHost Flip])
                 ++ [ByHost (Sleep (1 / 60 - (now n - start_time))%float)]
            else trace ++ [ByHost SwitchTo; ByHost DispatchEvents;
                           ByHost DispatchDraw; ByHost Flip])
           ++ (ByWindow <$> added w w')) w'
    end.
Proof. reflexivity. Qed.

Lemma test_frames_capped (cap : Z) (fuel : nat) (now : nat → float) (frames : nat) :
  (Z.to_nat (cap + 1) < fuel)%nat →
  ∀ (n : nat) (start_time : float) (trace : list TestStep) (w : World),
    _fixed_frame_cap (win w) = Some cap →
    ∃ (w' : World) (trace' : list TestStep),
      test_frames fuel now frames n start_time trace w = Some (w', trace')
      ∧ draws_and_updates trace'
        = draws_and_updates trace ++ concat (replicate frames frame_steps).
Proof.
  intros Hfuel. induction frames as [|frames IH]; intros n start_time trace w Hcap.
  - exists w, trace. by rewrite app_nil_r.
  - rewrite test_frames_S.
    destruct (dispatch_updates_capped_shape cap fuel (1 / 60)%float w Hcap Hfuel)
      as (w1 & k & -> & Hadded & Hcap1).
    set (trace1 := _ ++ (ByWindow <$> added w w1)).
    destruct (IH (S n) (now n) trace1 w1 Hcap1) as (w' & trace' & Hrun & Htrace).
    exists w', trace'. split; [exact Hrun|]. rewrite Htrace. unfold trace1.
    rewrite Hadded, draws_and_updates_app, draws_and_updates_firing.
    destruct (_ <? _)%float; rewrite !draws_and_updates_app, <- !app_assoc; done.
Qed.

Lemma dispatch_updates_added (fuel : nat) (delta_time : float) (w w' : World) :
  _dispatch_updates fuel delta_time w = Some w' →
  ∃ k : nat,
    added w w' = replicate k (Dispatch "on_fixed_update" (_fixed_rate (win w)))
                 ++ [Dispatch "on_update" delta_time].
Proof.
  unfold _dispatch_updates. set (w0 := set_win _ w).
  destruct (fixed_updates fuel 0 w0) as [w1|] eqn:Hrun; [|done]. intros [= <-].
  destruct (fixed_updates_run _ _ _ _ Hrun) as (k & Hlog & _).
  assert (log w0 = log w ∧ _fixed_rate (win w0) = _fixed_rate (win w))
    as (Hl0 & Hr0) by by destruct w as [? [] ? ? ? ?].
  exists k. apply added_app. unfold pyglet.dispatch_event, emit. simpl.
  rewrite Hlog, Hl0, Hr0, <- app_assoc. done.
Qed.

Lemma test_frames_shape (fuel : nat) (now : nat → float) (frames : nat) :
  ∀ (n : nat) (start_time : float) (trace trace' : list TestStep) (w w' : World),
    test_frames fuel now frames n start_time trace w = Some (w', trace') →
    draws_and_updates trace'
    = draws_and_updates trace ++ concat (replicate frames frame_steps).
Proof.
  induction frames as [|frames IH]; intros n start_time trace trace' w w'.
  - intros [= <- <-]. by rewrite app_nil_r.
  - rewrite test_frames_S.
    destruct (_dispatch_updates fuel (1 / 60)%float w) as [w1|] eqn:Hfire; [|done].
    destruct (dispatch_updates_added _ _ _ _ Hfire) as [k Hadded].
    intros Hrun. rewrite (IH _ _ _ _ _ _ Hrun), Hadded.
    rewrite draws_and_updates_app, draws_and_updates_firing.
    destruct (_ <? _)%float; rewrite !draws_and_updates_app, <- !app_assoc; done.
Qed.

(** [test(frames)] draws and then fires the update trigger once per frame,
    always with a delta of [1/60] whatever time really went by: the draws
    and variable updates of a run that returns are [frames] pairs of an
    "on_draw" and an "on_update" carrying [1/60].  On a window with a
    [fixed_frame_cap] the run does return; and with [frames <= 0] nothing
    happens at all. *)
Theorem test_fires_once_per_frame (fuel : nat) (now : nat → float) (frames : Z) (w : World) :
  (∀ w' trace,
     test fuel now frames w = Some (w', trace) →
     draws_and_updates trace = concat (replicate (Z.to_nat frames) frame_steps))
  ∧ (∀ cap,
       _fixed_frame_cap (win w) = Some cap →
       (Z.to_nat (cap + 1) < fuel)%nat →
       ∃ w' trace, test fuel now frames w = Some (w', trace))
  ∧ (frames ≤ 0 → test fuel now frames w = Some (w, [])).
Proof.
  unfold test. split; [|split].
  - intros w' trace Hrun. by rewrite (test_frames_shape _ _ _ _ _ _ _ _ _ Hrun).
  - intros cap Hcap Hfuel.
    destruct (test_frames_capped cap fuel now (Z.to_nat frames) Hfuel
                1%nat (now 0%nat) [] w Hcap) as (w' & trace & Hrun & _).
    eauto.
  - intros Hle. by replace (Z.to_nat frames) with 0%nat by lia.
Qed.

(** ** What an event reaches, across showing and hiding *)

Lemma filter_all {A} (P : A → Prop) `{∀ x, Decision (P x)} (l : list A) :
  Forall P l → filter P l = l.
Proof.
  induction 1 as [|x l Hx _ IH]; [done|].
  by rewrite filter_cons, decide_True, IH.
Qed.

Lemma filter_none {A} (P : A → Prop) `{∀ x, Decision (P x)} (l : list A) :
  Forall (fun x => ¬ P x) l → filter P l = [].
Proof.
  induction 1 as [|x l Hx _ IH]; [done|].
  by rewrite filter_cons, decide_False.
Qed.

Lemma filter_agree {A} (P Q : A → Prop) `{∀ x, Decision (P x)} `{∀ x, Decision (Q x)}
    (l : list A) :
  Forall (fun x => P x ↔ Q x) l → filter P l = filter Q l.
Proof.
  induction 1 as [|x l Hx _ IH]; [done|].
  rewrite !filter_cons, IH.
  destruct (decide (P x)), (decide (Q x)); tauto.
Qed.

Lemma stack_reach_app (e : string) (s1 s2 : list (gmap string Handler)) :
  stack_reach e (s1 ++ s2) = stack_reach e s1 ++ stack_reach e s2.
Proof. apply omap_app. Qed.

Lemma stack_reach_elem (e : string) (s : list (gmap string Handler)) (h : Handler) :
  h ∈ stack_reach e s ↔ ∃ frame, frame ∈ s ∧ frame !! e = Some h.
Proof. apply list_elem_of_omap. Qed.

Lemma strip_lookup (o : Owner) (frame : gmap string Handler) (e : string) :
  pyglet.strip o frame !! e
  = match frame !! e with
    | Some h => if decide (pyglet.owned_by o h) then None else Some h
    | None => None
    end.
Proof.
  unfold pyglet.strip. apply option_eq. intros h.
  rewrite map_lookup_filter_Some. simpl.
  destruct (frame !! e) as [h0|].
  - destruct (decide (pyglet.owned_by o h0)) as [Ho|Ho].
    + split; [|done]. intros [[= ->] Hn]. done.
    + split; [by intros [? _]|]. intros [= ->]. done.
  - split; [by intros [? _]|done].
Qed.

(** Unregistering an owner takes its handlers out of what every event
    reaches, and nothing else. *)
Lemma stack_reach_remove (o : Owner) (e : string) (s : list (gmap string Handler)) :
  stack_reach e (pyglet.remove_from_stack o s)
  = filter (fun h => ¬ pyglet.owned_by o h) (stack_reach e s).
Proof.
  induction s as [|frame s IH]; [done|].
  assert (stack_reach e (pyglet.remove_from_stack o (frame :: s))
          = match pyglet.strip o frame !! e with Some h => [h] | None => [] end
            ++ stack_reach e (pyglet.remove_from_stack o s)) as ->.
  { unfold pyglet.remove_from_stack. rewrite fmap_cons, filter_cons.
    destruct (decide (pyglet.strip o frame ≠ ∅)) as [_|Hempty].
    - unfold stack_reach. simpl. by destruct (pyglet.strip o frame !! e).
    - apply dec_stable in Hempty. rewrite Hempty, lookup_empty. done. }
  rewrite IH, strip_lookup. unfold stack_reach at 2. simpl.
  destruct (frame !! e) as [h|]; [|done].
  rewrite filter_cons. destruct (decide (pyglet.owned_by o h)).
  - by rewrite decide_False by tauto.
  - by rewrite decide_True by tauto.
Qed.

Lemma stack_reach_registered (e : string) (w : World) :
  stack_ok w → Forall (registered_ok w) (stack_reach e (_event_stack (win w))).
Proof.
  unfold stack_ok. rewrite !Forall_forall.
  intros Hok h (frame & Hin & Hl)%stack_reach_elem. exact (Hok frame Hin e h Hl).
Qed.

(** On a stack of registered handlers, taking the view on show off the
    stack leaves every event with its window-level handlers. *)
Lemma stack_reach_cleared (e : string) (w : World) :
  stack_ok w →
  stack_reach e (cleared_stack w) = window_level_of (stack_reach e (_event_stack (win w))).
Proof.
  intros Hok. pose proof (stack_reach_registered e w Hok) as Hreg.
  unfold cleared_stack, window_level_of.
  destruct (_current_view (win w)) as [c|] eqn:Hc.
  - destruct (ref_has_sections w c) eqn:Hs.
    + rewrite !stack_reach_remove, list_filter_filter. apply filter_agree.
      eapply Forall_impl; [exact Hreg|]. intros h.
      unfold registered_ok, view_level, pyglet.owned_by. rewrite Hc.
      destruct (handler_owner h) as [[]|]; intuition congruence.
    + rewrite stack_reach_remove. apply filter_agree.
      eapply Forall_impl; [exact Hreg|]. intros h.
      unfold registered_ok, view_level, pyglet.owned_by. rewrite Hc.
      destruct (handler_owner h) as [[]|]; intuition congruence.
  - symmetry. apply filter_all.
    eapply Forall_impl; [exact Hreg|]. intros h.
    unfold registered_ok, view_level. rewrite Hc.
    destruct (handler_owner h) as [[]|]; intuition congruence.
Qed.

Lemma window_level_of_app (l1 l2 : list Handler) :
  window_level_of (l1 ++ l2) = window_level_of l1 ++ window_level_of l2.
Proof. apply filter_app. Qed.

Lemma window_level_of_idem (l : list Handler) :
  window_level_of (window_level_of l) = window_level_of l.
Proof. unfold window_level_of. apply list_filter_filter_l. tauto. Qed.

(** What the frames of a view just shown hold is view-level, provided the
    section manager has a method for each event it manages. *)
Lemma shown_frames_view_level (w : World) (v : ViewId) (e : string) :
  sections_bound w v →
  window_level_of
    (stack_reach e (frames_of (view_push w v) ++ frames_of (section_push w v))) = [].
Proof.
  intros Hbound. apply filter_none, Forall_forall.
  intros h (frame & Hin & Hl)%stack_reach_elem Hnot. apply Hnot. clear Hnot.
  apply elem_of_app in Hin as [Hin|Hin].
  - apply frames_of_view_push in Hin as ->.
    apply view_handlers_lookup in Hl as (-> & _). exact I.
  - apply frames_of_section_push in Hin as [-> Hs].
    apply section_handlers_lookup in Hl as [Hin ->].
    assert (e ∈ section_manager_managed_events w v) as Hm.
    { unfold section_manager_managed_events. by rewrite Hs. }
    specialize (Hbound e Hm). revert Hbound.
    unfold getattr_sections. destruct (views w !! v) as [V|]; [|done].
    destruct (bool_decide _); [|done]. intros _. exact I.
Qed.

(** What the dispatcher reaches once [show_view] is through: the new view's
    handlers, its manager's, then the window-level ones of before. *)
Lemma show_view_reach (x : pyval) (v : ViewId) (w w' : World) (e : string) :
  stack_ok w →
  as_view w x = Some v →
  show_view x w = Ok w' →
  stack_reach e (_event_stack (win w'))
  = stack_reach e (frames_of (view_push w v) ++ frames_of (section_push w v))
    ++ window_level_of (stack_reach e (_event_stack (win w))).
Proof.
  intros Hok Hv Hshow.
  rewrite (show_view_stack _ _ _ _ Hv Hshow), app_assoc, stack_reach_app.
  by rewrite stack_reach_cleared.
Qed.

Lemma reached_window_level (e : string) (w : World) :
  window_level_of (pyglet.reached e w)
  = window_level_of (stack_reach e (_event_stack (win w))) ++ [HBound OWindow e].
Proof.
  unfold pyglet.reached. fold (stack_reach e (_event_stack (win w))).
  rewrite window_level_of_app. f_equal.
Qed.

Lemma sections_bound_same (w1 w2 : World) (v : ViewId) :
  same_views w1 w2 → sections_bound w2 v → sections_bound w1 v.
Proof.
  intros Hsame Hb e. rewrite (managed_events_same _ _ v Hsame).
  destruct Hsame as [_ Hsame]. destruct (Hsame v) as (_ & _ & -> & _). apply Hb.
Qed.

(** Showing a view and hiding it again leaves every event with the
    window-level handlers it reached before, in their order: the pair takes
    off the stack what it put there, and with it the handlers of the view
    that was on show before.  With no view on show before, every event
    reaches exactly what it did. *)
Theorem show_then_hide_restores_reach (x : pyval) (w w1 w2 : World) :
  stack_ok w →
  (∀ v, as_view w x = Some v → sections_bound w v) →
  show_view x w = Ok w1 →
  hide_view w1 = Ok w2 →
  _current_view (win w2) = None
  ∧ (∀ e, pyglet.reached e w2 = window_level_of (pyglet.reached e w))
  ∧ (_current_view (win w) = None → ∀ e, pyglet.reached e w2 = pyglet.reached e w).
Proof.
  intros Hok Hbound Hshow Hhide.
  destruct (show_view_Ok_inv _ _ _ Hshow) as [v Hv]. specialize (Hbound v Hv).
  destruct (show_view_log x v w Hv) as (w1' & Hshow' & _ & Hcur & Hsame).
  rewrite Hshow in Hshow'. injection Hshow' as <-.
  destruct (hide_view_active w1 v Hcur) as (w2' & Hhide' & _ & Hstack & Hnone).
  rewrite Hhide in Hhide'. injection Hhide' as <-.
  pose proof (stack_ok_show_view _ _ _ Hok Hshow) as Hok1.
  assert (∀ e, pyglet.reached e w2 = window_level_of (pyglet.reached e w)) as Hreach.
  { intros e. rewrite reached_window_level. unfold pyglet.reached at 1.
    fold (stack_reach e (_event_stack (win w2))).
    rewrite Hstack, (stack_reach_cleared e w1 Hok1).
    rewrite (show_view_reach _ _ _ _ e Hok Hv Hshow), window_level_of_app.
    by rewrite (shown_frames_view_level w v e Hbound), window_level_of_idem. }
  split; [exact Hnone|]. split; [exact Hreach|].
  intros Hc e. rewrite Hreach. apply filter_all, Forall_forall.
  intros h [(frame & Hin & Hl) | ->]%reached_elem; [|by intros []].
  unfold stack_ok in Hok. rewrite Forall_forall in Hok.
  specialize (Hok frame Hin e h Hl). revert Hok.
  unfold registered_ok, view_level. rewrite Hc.
  destruct (handler_owner h) as [[]|]; intuition congruence.
Qed.

Lemma show_then_hide_witness :
  ∃ w1 w2 : World,
    show_view (PyView 8) Sample.world = Ok w1
    ∧ hide_view w1 = Ok w2
    ∧ _current_view (win w2) = None
    ∧ (∀ e, pyglet.reached e w2 = window_level_of (pyglet.reached e Sample.world))
    ∧ (_current_view (win Sample.world) = None →
       ∀ e, pyglet.reached e w2 = pyglet.reached e Sample.world).
Proof.
  destruct Sample_show_sectioned as (w1 & Hshow & _).
  assert (stack_ok Sample.world) as Hok
    by (apply (bool_decide_unpack _); vm_compute; exact I).
  assert (∀ v, as_view Sample.world (PyView 8) = Some v → sections_bound Sample.world v)
    as Hbound.
  { intros v [[= <-] _]%as_view_Some.
    apply (bool_decide_unpack _). vm_compute. exact I. }
  assert (_current_view (win w1) = Some 8%nat) as Hcur.
  { destruct (show_view_log (PyView 8) 8%nat Sample.world) as (w1' & Hshow' & _ & Hcur & _).
    - vm_compute. reflexivity.
    - rewrite Hshow in Hshow'. by injection Hshow' as <-. }
  destruct (hide_view_active w1 8%nat Hcur) as (w2 & Hhide & _).
  exists w1, w2. split; [exact Hshow|]. split; [exact Hhide|].
  exact (show_then_hide_restores_reach _ _ _ _ Hok Hbound Hshow Hhide).
Defined.

(** Showing again the view that is on show changes nothing in what the
    events reach: its handlers are taken off the stack and pushed again. *)
Theorem show_view_again_same_reach (x : pyval) (w w1 w2 : World) :
  stack_ok w →
  (∀ v, as_view w x = Some v → sections_bound w v) →
  show_view x w = Ok w1 →
  show_view x w1 = Ok w2 →
  _current_view (win w2) = _current_view (win w1)
  ∧ ∀ e, pyglet.reached e w2 = pyglet.reached e w1.
Proof.
  intros Hok Hbound Hshow Hagain.
  destruct (show_view_Ok_inv _ _ _ Hshow) as [v Hv]. specialize (Hbound v Hv).
  destruct (show_view_log x v w Hv) as (w1' & Hshow' & _ & Hcur & Hsame).
  rewrite Hshow in Hshow'. injection Hshow' as <-.
  destruct (show_view_Ok_inv _ _ _ Hagain) as [v' Hv'].
  assert (v' = v) as ->.
  { apply as_view_Some in Hv as [-> _]. apply as_view_Some in Hv' as [[= ->] _]. done. }
  destruct (show_view_log x v w1 Hv') as (w2' & Hagain' & _ & Hcur2 & _).
  rewrite Hagain in Hagain'. injection Hagain' as <-.
  pose proof (stack_ok_show_view _ _ _ Hok Hshow) as Hok1.
  split; [by rewrite Hcur, Hcur2|]. intros e. unfold pyglet.reached. f_equal.
  fold (stack_reach e (_event_stack (win w2))) (stack_reach e (_event_stack (win w1))).
  rewrite (show_view_reach _ _ _ _ e Hok1 Hv' Hagain).
  rewrite (view_push_same _ _ v Hsame), (section_push_same _ _ v Hsame).
  rewrite (show_view_reach _ _ _ _ e Hok Hv Hshow), window_level_of_app.
  by rewrite (shown_frames_view_level w v e Hbound), window_level_of_idem.
Qed.

Lemma show_view_again_witness :
  ∃ w1 w2 : World,
    show_view (PyView 8) Sample.world = Ok w1
    ∧ show_view (PyView 8) w1 = Ok w2
    ∧ _current_view (win w2) = _current_view (win w1)
    ∧ ∀ e, pyglet.reached e w2 = pyglet.reached e w1.
Proof.
  destruct Sample_show_sectioned as (w1 & Hshow & _).
  assert (stack_ok Sample.world) as Hok
    by (apply (bool_decide_unpack _); vm_compute; exact I).
  assert (∀ v, as_view Sample.world (PyView 8) = Some v → sections_bound Sample.world v)
    as Hbound.
  { intros v [[= <-] _]%as_view_Some.
    apply (bool_decide_unpack _). vm_compute. exact I. }
  assert (as_view w1 (PyView 8) = Some 8%nat) as Hv1.
  { apply as_view_Some. split; [done|].
    rewrite (show_view_views (PyView 8) 8%nat Sample.world w1); [|by vm_compute|exact Hshow].
    vm_compute. eauto. }
  destruct (show_view_log (PyView 8) 8%nat w1 Hv1) as (w2 & Hagain & _).
  exists w1, w2. split; [exact Hshow|]. split; [exact Hagain|].
  exact (show_view_again_same_reach _ _ _ _ Hok Hbound Hshow Hagain).
Defined.

(** Switching views with [show_view] tells the outgoing view that it is
    hidden, but not its section manager: no call of [show_view] invokes a
    manager's [on_hide_view], where [hide_view] on the same world does for
    a view with sections. *)
Theorem show_view_skips_manager_hide (x : pyval) (c : ViewId) (w w1 : World) :
  _current_view (win w) = Some c →
  show_view x w = Ok w1 →
  Call (OView c) "on_hide_view" ∈ added w w1
  ∧ (∀ u, Call (OSections u) "on_hide_view" ∉ added w w1)
  ∧ ∃ w2, hide_view w = Ok w2
          ∧ Call (OView c) "on_hide_view" ∈ added w w2
          ∧ (ref_has_sections w c = true →
             Call (OSections c) "on_hide_view" ∈ added w w2).
Proof.
  intros Hc Hshow.
  destruct (show_view_Ok_inv _ _ _ Hshow) as [v Hv].
  destruct (show_view_log x v w Hv) as (w1' & Hshow' & Hlog & _).
  rewrite Hshow in Hshow'. injection Hshow' as <-.
  rewrite (added_app _ _ _ Hlog).
  destruct (hide_view_active w c Hc) as (w2 & Hhide & Hlog2 & _).
  unfold bind_actions, remove_actions, section_push, view_push, shown_actions,
    hide_actions.
  rewrite Hc. split; [|split].
  - rewrite !elem_of_app. right. right. left. apply elem_of_cons. by left.
  - intros u. rewrite !not_elem_of_app, !not_elem_of_cons.
    destruct (views w !! v) as [V|]; [destruct (window V)|];
      destruct (ref_has_sections w c), (ref_has_sections w v); simpl;
      destruct (bool_decide (section_handlers w v ≠ ∅));
      destruct (bool_decide (view_handlers w v ≠ ∅));
      rewrite ?not_elem_of_cons, ?elem_of_nil; intuition discriminate.
  - exists w2. split; [exact Hhide|]. rewrite (added_app _ _ _ Hlog2).
    unfold hide_actions. split; [apply elem_of_cons; by left|].
    intros ->. apply elem_of_cons. right. apply elem_of_app. left.
    apply elem_of_cons. by left.
Qed.

Lemma show_view_skips_manager_hide_witness :
  ∃ w w1 : World,
    show_view (PyView 8) Sample.world = Ok w
    ∧ show_view (PyView 7) w = Ok w1
    ∧ Call (OView 8) "on_hide_view" ∈ added w w1
    ∧ (∀ u, Call (OSections u) "on_hide_view" ∉ added w w1)
    ∧ ∃ w2, hide_view w = Ok w2
            ∧ Call (OView 8) "on_hide_view" ∈ added w w2
            ∧ (ref_has_sections w 8 = true →
               Call (OSections 8) "on_hide_view" ∈ added w w2).
Proof.
  destruct Sample_show_sectioned as (w & Hshow & _).
  assert (as_view Sample.world (PyView 8) = Some 8%nat) as Hv by (by vm_compute).
  destruct (show_view_log (PyView 8) 8%nat Sample.world Hv) as (w' & Hshow' & _ & Hcur & _).
  rewrite Hshow in Hshow'. injection Hshow' as <-.
  assert (as_view w (PyView 7) = Some 7%nat) as Hv1.
  { apply as_view_Some. split; [done|].
    rewrite (show_view_views (PyView 8) 8%nat Sample.world w Hv Hshow).
    vm_compute. eauto. }
  destruct (show_view_log (PyView 7) 7%nat w Hv1) as (w1 & Hswitch & _).
  exists w, w1. split; [exact Hshow|]. split; [exact Hswitch|].
  exact (show_view_skips_manager_hide _ _ _ _ Hcur Hswitch).
Defined.

(** ** The window as its constructor leaves it *)

(** The constructor puts the update trigger on the clock exactly once, at
    [update_rate], whatever the clock held for it.  It stores [draw_rate]
    but schedules nothing with it: the entries of every other callback,
    the draw trigger among them, are those the clock had.  And it makes the
    new window the current one. *)
Theorem constructed_window_schedule (id : WindowId) (h : Host) (a : WindowArgs) :
  scheduled_rates (DispatchUpdates id) (Window_setup id h a) = [arg_update_rate a]
  ∧ (∀ cb, cb ≠ DispatchUpdates id →
           scheduled_rates cb (Window_setup id h a)
           = (filter (fun item => item.1 = cb) (host_clock_items h)).*2)
  ∧ _update_rate (win (Window_setup id h a)) = arg_update_rate a
  ∧ _draw_rate (win (Window_setup id h a)) = arg_draw_rate a
  ∧ current_window (Window_setup id h a) = Some id.
Proof.
  assert (clock_items (Window_setup id h a)
          = filter (fun item => item.1 ≠ DispatchUpdates id) (host_clock_items h)
            ++ [(DispatchUpdates id, arg_update_rate a)]) as Hclock.
  { unfold Window_setup. by destruct (arg_enable_polling a), (headless h). }
  assert (∀ cb, scheduled_rates cb (Window_setup id h a)
                = if decide (cb = DispatchUpdates id) then [arg_update_rate a]
                  else (filter (fun item => item.1 = cb) (host_clock_items h)).*2)
    as Hrates.
  { intros cb. unfold scheduled_rates.
    rewrite Hclock, filter_app, filter_eq_filter_ne, filter_cons. simpl.
    destruct (decide (cb = DispatchUpdates id)) as [->|Hne].
    - by rewrite decide_True.
    - rewrite decide_False by (by intros ?). by rewrite filter_nil, app_nil_r. }
  split; [|split].
  - rewrite Hrates. by rewrite decide_True.
  - intros cb Hne. rewrite Hrates. by rewrite decide_False.
  - unfold Window_setup. by destruct (arg_enable_polling a), (headless h).
Qed.

(** ** The window's own resize handler *)

Lemma resize_hooked_push (frames s : list (gmap string Handler)) :
  resize_hooked s → resize_hooked (frames ++ s).
Proof.
  intros [before Hs]. exists (stack_reach "on_resize" frames ++ before).
  by rewrite stack_reach_app, Hs, app_assoc.
Qed.

Lemma resize_hooked_remove (o : Owner) (s : list (gmap string Handler)) :
  o ≠ OWindow → resize_hooked s → resize_hooked (pyglet.remove_from_stack o s).
Proof.
  intros Ho [before Hs].
  exists (filter (fun h => ¬ pyglet.owned_by o h) before).
  rewrite stack_reach_remove, Hs, filter_app. f_equal.
  rewrite filter_cons, decide_True; [done|].
  unfold pyglet.owned_by. simpl. congruence.
Qed.

Lemma resize_hooked_cleared (w : World) :
  resize_hooked (_event_stack (win w)) → resize_hooked (cleared_stack w).
Proof.
  intros Hs. unfold cleared_stack. destruct (_current_view (win w)) as [c|]; [|done].
  apply resize_hooked_remove; [done|].
  destruct (ref_has_sections w c); [|done]. by apply resize_hooked_remove.
Qed.

Lemma dispatch_updates_stack (fuel : nat) (delta_time : float) (w w' : World) :
  _dispatch_updates fuel delta_time w = Some w' →
  _event_stack (win w') = _event_stack (win w).
Proof.
  unfold _dispatch_updates.
  destruct (fixed_updates fuel 0 _) as [w1|] eqn:Hrun; [|done]. intros [= <-].
  destruct (fixed_updates_binding _ _ _ _ Hrun) as (Hs & _).
  simpl. rewrite Hs. by destruct w as [? [] ? ? ? ?].
Qed.

(** Whatever views a program shows and hides, and however the triggers are
    rescheduled, a resize always reaches the window's own [_on_resize], and
    reaches it right before the overridable [on_resize] of the window:
    the handlers of views come before both. *)
Theorem reachable_resize_hooked (w : World) :
  reachable w →
  ∃ before,
    pyglet.reached "on_resize" w
    = before ++ [HBound OWindow "_on_resize"; HBound OWindow "on_resize"].
Proof.
  intros Hreach.
  assert (resize_hooked (_event_stack (win w))) as [before Hs].
  { induction Hreach as [id h a w Hinit| |x w w' _ IH Hshow|w w' _ IH Hhide
                        |fuel delta_time w w' _ IH Hrun| | |].
    - unfold Window_init in Hinit. destruct (gl_config_available h); [|done].
      injection Hinit as <-.
      assert (∃ frames, _event_stack (win (Window_setup id h a))
                = frames ++ [{[ "on_resize"%string := HBound OWindow "_on_resize" ]}])
        as [frames ->].
      { unfold Window_setup.
        destruct (arg_enable_polling a); [destruct (headless h)|];
          [eexists [_]|eexists [_]|exists []]; reflexivity. }
      apply resize_hooked_push. exists []. reflexivity.
    - done.
    - destruct (show_view_Ok_inv _ _ _ Hshow) as [v Hv].
      rewrite (show_view_stack _ _ _ _ Hv Hshow), app_assoc.
      by apply resize_hooked_push, resize_hooked_cleared.
    - destruct (_current_view (win w)) as [c|] eqn:Hc.
      + destruct (hide_view_active w c Hc) as (w'' & Hhide' & _ & Hst & _).
        rewrite Hhide in Hhide'. injection Hhide' as <-.
        rewrite Hst. by apply resize_hooked_cleared.
      + unfold hide_view in Hhide. rewrite Hc in Hhide. by injection Hhide as <-.
    - by rewrite (dispatch_updates_stack _ _ _ _ Hrun).
    - by destruct w as [? [] ? ? ? ?].
    - by destruct w as [? [] ? ? ? ?].
    - by destruct w as [? [] ? ? ? ?]. }
  exists before. unfold pyglet.reached.
  fold (stack_reach "on_resize" (_event_stack (win w))).
  by rewrite Hs, <- app_assoc.
Qed.

Lemma reachable_resize_hooked_witness :
  ∃ w1 : World,
    show_view (PyView 8) Sample.world = Ok w1
    ∧ ∃ before,
        pyglet.reached "on_resize" w1
        = before ++ [HBound OWindow "_on_resize"; HBound OWindow "on_resize"].
Proof.
  destruct Sample_show_sectioned as (w1 & Hshow & _).
  exists w1. split; [exact Hshow|].
  apply reachable_resize_hooked.
  assert (Sample.world
          = set_views (insert 8%nat Sample.sectioned_view)
              (set_views (insert 7%nat Sample.plain_view) (Sample.opened None)))
    as Hworld by (vm_compute; reflexivity).
  apply (reach_show_view (PyView 8) Sample.world w1); [|exact Hshow].
  rewrite Hworld.
  apply reach_new_view; [|vm_compute; reflexivity].
  apply reach_new_view; [|vm_compute; reflexivity].
  apply (reach_init 1%nat Sample.host (Sample.args None)). reflexivity.
Defined.

(** ** Centering the window *)

(** The location [center_window] asks for leaves as much room on the left
    as on the right, and below as above, to within one pixel, the spare
    pixel going right and down; a window no larger than the screen lies on
    the screen, a larger one starts off it. *)
Theorem center_window_centered (screen_width screen_height window_width window_height : Z) :
  let '(x, y) :=
    center_window_location screen_width screen_height window_width window_height in
  (0 ≤ (screen_width - window_width - x) - x ≤ 1)
  ∧ (0 ≤ (screen_height - window_height - y) - y ≤ 1)
  ∧ (window_width ≤ screen_width ↔ 0 ≤ x)
  ∧ (window_height ≤ screen_height ↔ 0 ≤ y)
  ∧ (window_width ≤ screen_width → x + window_width ≤ screen_width)
  ∧ (window_height ≤ screen_height → y + window_height ≤ screen_height).
Proof.
  unfold center_window_location.
  pose proof (Z.div_mod (screen_width - window_width) 2).
  pose proof (Z.mod_pos_bound (screen_width - window_width) 2).
  pose proof (Z.div_mod (screen_height - window_height) 2).
  pose proof (Z.mod_pos_bound (screen_height - window_height) 2).
  lia.
Qed.

(** ** The key a view remembers *)

Lemma View_on_keys_cons (ev : KeyEvent) (evs : list KeyEvent) (V : View) :
  View_on_keys (ev :: evs) V
  = ((View_on_keys evs (View_on_key ev V).1).1,
     (View_on_key ev V).2 :: (View_on_keys evs (View_on_key ev V).1).2).
Proof.
  simpl. destruct (View_on_key ev V) as [V1 handled]. simpl.
  by destruct (View_on_keys evs V1).
Qed.

(** After any run of keyboard events a view's [key] is the symbol of the
    last event if that was a press and [None] if it was a release, of
    whatever key: releasing one key forgets another that is still held.
    No handler claims the event (each returns [False]), and the view's
    window and sections are left alone. *)
Theorem View_on_keys_last_event (evs : list KeyEvent) (V : View) :
  key (View_on_keys evs V).1
  = match last evs with
    | None => key V
    | Some (KeyPress symbol _) => Some symbol
    | Some (KeyRelease _ _) => None
    end
  ∧ (View_on_keys evs V).2 = replicate (length evs) false
  ∧ window (View_on_keys evs V).1 = window V
  ∧ _section_manager (View_on_keys evs V).1 = _section_manager V
  ∧ extra_attrs (View_on_keys evs V).1 = extra_attrs V.
Proof.
  revert V. induction evs as [|ev evs IH]; intros V; [done|].
  rewrite View_on_keys_cons. cbn [fst snd].
  destruct (IH (View_on_key ev V).1) as (Hkey & -> & -> & -> & ->).
  split; [|by destruct ev]. rewrite Hkey.
  destruct evs as [|ev' evs]; [by destruct ev|].
  change (last (ev :: ev' :: evs)) with (last (ev' :: evs)).
  destruct (last (ev' :: evs)) as [last_ev|] eqn:Hlast; [done|].
  by apply last_None in Hlast.
Qed.

(** ** The documentation experiment *)

Section DocExperimentProperties.

Import DocExperiment.

Context {Ast Exc : Type} (ast_parse : string → Exc + Ast) (strip : string → string).

Lemma Entry_nested_ind (P : Entry Exc → Prop) :
  (∀ stem suffix text, P (File stem suffix text)) →
  (∀ stem entries, Forall P entries → P (Dir stem entries)) →
  (∀ stem suffix, P (Other stem suffix)) →
  ∀ path, P path.
Proof.
  intros Hfile Hdir Hother. fix IH 1. intros [stem suffix text|stem entries|stem suffix].
  - apply Hfile.
  - apply Hdir. induction entries as [|path entries IHentries]; constructor.
    + apply IH.
    + exact IHentries.
  - apply Hother.
Qed.

Lemma visit_Dir (stem : string) (entries : list (Entry Exc)) (parent : ModuleInfo Ast) :
  visit ast_parse strip (Dir stem entries) parent
  = if bool_decide (stem ∉ EXCLUDE_MODULES) then
      match recurse_dir ast_parse strip entries (mkModuleInfo stem None None []) with
      | inl e => inl e
      | inr module =>
          if (0 <? length (children module))%nat
          then inr (set_child strip module parent)
          else inr parent
      end
    else inr parent.
Proof. reflexivity. Qed.

Lemma visit_File (stem suffix : string) (text : Exc + string) (parent : ModuleInfo Ast) :
  visit ast_parse strip (File stem suffix text) parent
  = if bool_decide (suffix = ".py"%string) then
      match text with
      | inl e => inl e
      | inr source =>
          match ast_parse source with
          | inl e => inl e
          | inr tree =>
              inr (set_child strip (mkModuleInfo stem (Some source) (Some tree) []) parent)
          end
      end
    else inr parent.
Proof.
  simpl. destruct (bool_decide _); [|done].
  destruct text as [e|source]; [done|]. by destruct (ast_parse source).
Qed.


Lemma visit_keeps (path : Entry Exc) (parent parent' : ModuleInfo Ast) :
  visit ast_parse strip path parent = inr parent' →
  _file_path_stem parent' = _file_path_stem parent
  ∧ _source parent' = _source parent
  ∧ _tree parent' = _tree parent.
Proof.
  destruct path as [stem suffix text|stem entries|stem suffix].
  - rewrite visit_File. destruct (bool_decide _); [|by intros [= <-]].
    destruct text as [e|source]; [done|].
    destruct (ast_parse source); [done|]. by intros [= <-].
  - rewrite visit_Dir. destruct (bool_decide _); [|by intros [= <-]].
    destruct (recurse_dir _ _ _ _) as [e|module]; [done|].
    destruct (0 <? _)%nat; by intros [= <-].
  - by intros [= <-].
Qed.

Lemma recurse_dir_keeps (entries : list (Entry Exc)) :
  ∀ parent parent' : ModuleInfo Ast,
    recurse_dir ast_parse strip entries parent = inr parent' →
    _file_path_stem parent' = _file_path_stem parent
    ∧ _source parent' = _source parent
    ∧ _tree parent' = _tree parent.
Proof.
  induction entries as [|path entries IH]; intros parent parent'; simpl.
  - by intros [= <-].
  - destruct (visit ast_parse strip path parent) as [e|parent1] eqn:Hvisit; [done|].
    intros Hrun. destruct (IH _ _ Hrun) as (-> & -> & ->).
    exact (visit_keeps _ _ _ Hvisit).
Qed.

(** *** What is never read *)



(** *** The names in the tree *)

Lemma dict_set_keys {A : Type} (k : string) (v : A) (d : list (string * A)) (name : string) :
  name ∈ (dict_set k v d).*1 ↔ name = k ∨ name ∈ d.*1.
Proof.
  induction d as [|[k' v'] d IH]; simpl.
  - rewrite list_elem_of_singleton, elem_of_nil. tauto.
  - destruct (decide (k = k')) as [->|Hne]; simpl; rewrite !elem_of_cons, ?IH; tauto.
Qed.

Lemma recurse_dir_names_from (entries : list (Entry Exc)) :
  Forall (fun path => ∀ parent parent' : ModuleInfo Ast,
            visit ast_parse strip path parent = inr parent' →
            ∀ name, name ∈ (children parent').*1 ↔
                    name ∈ (children parent).*1
                    ∨ (has_modules path ∧ strip (entry_stem path) = name)) entries →
  ∀ parent parent' : ModuleInfo Ast,
    recurse_dir ast_parse strip entries parent = inr parent' →
    ∀ name, name ∈ (children parent').*1 ↔
            name ∈ (children parent).*1
            ∨ ∃ path, path ∈ entries ∧ has_modules path ∧ strip (entry_stem path) = name.
Proof.
  induction 1 as [|path entries Hpath _ IH]; intros parent parent' Hrun name;
    simpl in Hrun.
  - injection Hrun as <-. split; [by left|].
    intros [?|(path & Hin & _)]; [done|]. by apply elem_of_nil in Hin.
  - destruct (visit ast_parse strip path parent) as [e|parent1] eqn:Hvisit; [done|].
    rewrite (IH _ _ Hrun), (Hpath _ _ Hvisit). split.
    + intros [[?|[? ?]]|(p & Hin & ? & ?)].
      * by left.
      * right. exists path. split; [by left|done].
      * right. exists p. split; [by right|done].
    + intros [?|(p & [->|Hin]%elem_of_cons & ? & ?)].
      * left. by left.
      * left. by right.
      * right. exists p. done.
Qed.

Lemma visit_names (path : Entry Exc) :
  ∀ parent parent' : ModuleInfo Ast,
    visit ast_parse strip path parent = inr parent' →
    ∀ name, name ∈ (children parent').*1 ↔
            name ∈ (children parent).*1
            ∨ (has_modules path ∧ strip (entry_stem path) = name).
Proof.
  induction path as [stem suffix text|stem entries IH|stem suffix] using Entry_nested_ind;
    intros parent parent' Hvisit name.
  - rewrite visit_File in Hvisit. case_bool_decide as Hpy.
    + destruct text as [e|source]; [done|].
      destruct (ast_parse source) as [e|tree]; [done|]. injection Hvisit as <-.
      simpl. rewrite dict_set_keys. unfold module_name. simpl. subst suffix. split.
      * intros [->|?]; [right|by left]. split; [constructor|done].
      * intros [?|[_ <-]]; [by right|by left].
    + injection Hvisit as <-. split; [by left|].
      intros [?|[Hm _]]; [done|]. inversion Hm; subst. done.
  - rewrite visit_Dir in Hvisit. case_bool_decide as Hex.
    + destruct (recurse_dir _ _ _ _) as [e|module] eqn:Hrun; [done|].
      pose proof (recurse_dir_names_from entries IH _ _ Hrun) as Hnames.
      destruct (recurse_dir_keeps _ _ _ Hrun) as (Hstem & _).
      destruct (0 <? length (children module))%nat eqn:Hlen.
      * injection Hvisit as <-. simpl. rewrite dict_set_keys.
        unfold module_name. rewrite Hstem. simpl.
        assert (has_modules (Dir stem entries)) as Hm.
        { destruct (children module) as [|[k m] rest] eqn:Hc; [done|].
          destruct (Hnames k) as [Hk _]. rewrite ?Hc in Hk.
          destruct Hk as [Hk|(path & Hin & Hpm & _)].
          - rewrite ?Hc. simpl. by left.
          - simpl in Hk. by apply elem_of_nil in Hk.
          - by econstructor. }
        split.
        -- intros [->|?]; [right|by left]. done.
        -- intros [?|[_ <-]]; [by right|by left].
      * injection Hvisit as <-. split; [by left|].
        intros [?|[Hm _]]; [done|]. exfalso.
        inversion Hm as [|? ? path Hnex Hin Hpm]; subst.
        assert (strip (entry_stem path) ∈ (children module).*1) as Hkey.
        { apply Hnames. right. eauto. }
        destruct (children module); [by apply elem_of_nil in Hkey|done].
    + injection Hvisit as <-. split; [by left|].
      intros [?|[Hm _]]; [done|]. inversion Hm; subst. done.
  - injection Hvisit as <-. split; [by left|].
    intros [?|[Hm _]]; [done|]. inversion Hm.
Qed.

(** The names under the root of the tree [build_module_tree] hands back are
    those of the paths in the package that bring a module: the Python
    files, [examples.py] too, and the directories outside the excluded
    names that hold such a path at some depth.  A directory of data files
    only, or of excluded directories only, has no entry. *)
Theorem built_tree_names (arcade : option (Entry Exc)) (root : ModuleInfo Ast) (name : string) :
  build_module_tree ast_parse strip arcade = inr root →
  ∃ stem entries,
    arcade = Some (Dir stem entries)
    ∧ (name ∈ (children root).*1 ↔
       ∃ path, path ∈ entries ∧ has_modules path ∧ strip (entry_stem path) = name).
Proof.
  destruct arcade as [[stem suffix text|stem entries|stem suffix]|]; simpl; [|
    |done|done].
  - destruct text as [e|source]; [done|]. by destruct (ast_parse source).
  - destruct (recurse_dir _ _ _ _) as [e|root'] eqn:Hrun; [done|]. intros [= <-].
    exists stem, entries. split; [done|].
    assert (Forall (fun path => ∀ parent parent' : ModuleInfo Ast,
              visit ast_parse strip path parent = inr parent' →
              ∀ name, name ∈ (children parent').*1 ↔
                      name ∈ (children parent).*1
                      ∨ (has_modules path ∧ strip (entry_stem path) = name)) entries)
      as Hall by (apply Forall_forall; intros path _; apply visit_names).
    rewrite (recurse_dir_names_from entries Hall _ _ Hrun name). simpl.
    rewrite elem_of_nil. tauto.
Qed.

(** *** No empty package *)

Lemma populated_unfold (m : ModuleInfo Ast) :
  populated m ↔
    match _tree m with
    | Some _ => children m = []
    | None => children m ≠ [] ∧ Forall (fun kv => populated kv.2) (children m)
    end.
Proof.
  destruct m as [stem source [tree|] modules]; simpl; [done|].
  apply and_iff_compat_l.
  induction modules as [|[k module] modules IH].
  - split; [constructor|done].
  - rewrite Forall_cons, <- IH. done.
Qed.

Lemma Forall_dict_set {A : Type} (P : A → Prop) (k : string) (v : A) (d : list (string * A)) :
  P v → Forall (fun kv => P kv.2) d → Forall (fun kv => P kv.2) (dict_set k v d).
Proof.
  intros Hv. induction 1 as [|[k' v'] d Hkv Hd IH]; simpl.
  - by repeat constructor.
  - destruct (decide (k = k')); by constructor.
Qed.

Lemma recurse_dir_populated_from (entries : list (Entry Exc)) :
  Forall (fun path => ∀ parent parent' : ModuleInfo Ast,
            Forall (fun kv => populated kv.2) (children parent) →
            visit ast_parse strip path parent = inr parent' →
            Forall (fun kv => populated kv.2) (children parent')) entries →
  ∀ parent parent' : ModuleInfo Ast,
    Forall (fun kv => populated kv.2) (children parent) →
    recurse_dir ast_parse strip entries parent = inr parent' →
    Forall (fun kv => populated kv.2) (children parent').
Proof.
  induction 1 as [|path entries Hpath _ IH]; intros parent parent' Hpop; simpl.
  - by intros [= <-].
  - destruct (visit ast_parse strip path parent) as [e|parent1] eqn:Hvisit; [done|].
    apply IH. by eapply Hpath.
Qed.

Lemma visit_populated (path : Entry Exc) :
  ∀ parent parent' : ModuleInfo Ast,
    Forall (fun kv => populated kv.2) (children parent) →
    visit ast_parse strip path parent = inr parent' →
    Forall (fun kv => populated kv.2) (children parent').
Proof.
  induction path as [stem suffix text|stem entries IH|stem suffix] using Entry_nested_ind;
    intros parent parent' Hpop.
  - rewrite visit_File. destruct (bool_decide _); [|by intros [= <-]].
    destruct text as [e|source]; [done|].
    destruct (ast_parse source) as [e|tree]; [done|]. intros [= <-]. simpl.
    by apply Forall_dict_set.
  - rewrite visit_Dir. destruct (bool_decide _); [|by intros [= <-]].
    destruct (recurse_dir _ _ _ _) as [e|module] eqn:Hrun; [done|].
    destruct (0 <? length (children module))%nat eqn:Hlen; [|by intros [= <-]].
    intros [= <-]. simpl. apply Forall_dict_set; [|done].
    apply populated_unfold.
    destruct (recurse_dir_keeps _ _ _ Hrun) as (_ & _ & ->). simpl. split.
    + intros Hnil. by rewrite Hnil in Hlen.
    + refine (recurse_dir_populated_from entries IH
                (mkModuleInfo stem None None []) _ _ Hrun). constructor.
  - by intros [= <-].
Qed.

(** The tree [build_module_tree] hands back holds no empty package: below
    the root every module made from a directory has children, and every
    module without children was parsed from a file. *)
Theorem built_tree_populated (arcade : option (Entry Exc)) (root : ModuleInfo Ast) :
  build_module_tree ast_parse strip arcade = inr root →
  _tree root = None
  ∧ Forall (fun kv => populated kv.2) (children root).
Proof.
  destruct arcade as [[stem suffix text|stem entries|stem suffix]|]; simpl; [|
    |done|done].
  - destruct text as [e|source]; [done|]. by destruct (ast_parse source).
  - destruct (recurse_dir _ _ _ _) as [e|root'] eqn:Hrun; [done|]. intros [= <-].
    destruct (recurse_dir_keeps _ _ _ Hrun) as (_ & _ & ->). split; [done|].
    refine (recurse_dir_populated_from entries _
              (mkModuleInfo "arcade" None None []) _ _ Hrun); [|constructor].
    apply Forall_forall. intros path _. apply visit_populated.
Qed.

(** *** When the scan fails *)

Lemma first_error_app (texts1 texts2 : list (Exc + string)) :
  first_error ast_parse (texts1 ++ texts2)
  = match first_error ast_parse texts1 with
    | Some e => Some e
    | None => first_error ast_parse texts2
    end.
Proof.
  induction texts1 as [|[e|source] texts1 IH]; [done|done|]. simpl.
  by destruct (ast_parse source).
Qed.

Lemma loaded_texts_Dir (stem : string) (entries : list (Entry Exc)) :
  loaded_texts (Dir stem entries)
  = if bool_decide (stem ∉ EXCLUDE_MODULES)
    then concat (loaded_texts <$> entries) else [].
Proof.
  simpl. destruct (bool_decide _); [|done].
  induction entries as [|path entries IH]; [done|].
  rewrite fmap_cons. simpl. by rewrite IH.
Qed.

Lemma recurse_dir_outcome_from (entries : list (Entry Exc)) :
  Forall (fun path => ∀ parent : ModuleInfo Ast,
            match first_error ast_parse (loaded_texts path) with
            | Some e => visit ast_parse strip path parent = inl e
            | None => ∃ parent', visit ast_parse strip path parent = inr parent'
            end) entries →
  ∀ parent : ModuleInfo Ast,
    match first_error ast_parse (concat (loaded_texts <$> entries)) with
    | Some e => recurse_dir ast_parse strip entries parent = inl e
    | None => ∃ parent', recurse_dir ast_parse strip entries parent = inr parent'
    end.
Proof.
  induction 1 as [|path entries Hpath _ IH]; intros parent.
  - simpl. eauto.
  - rewrite fmap_cons. simpl. rewrite first_error_app.
    specialize (Hpath parent).
    destruct (first_error ast_parse (loaded_texts path)) as [e|].
    + by rewrite Hpath.
    + destruct Hpath as [parent1 ->]. apply IH.
Qed.

Lemma visit_outcome (path : Entry Exc) :
  ∀ parent : ModuleInfo Ast,
    match first_error ast_parse (loaded_texts path) with
    | Some e => visit ast_parse strip path parent = inl e
    | None => ∃ parent', visit ast_parse strip path parent = inr parent'
    end.
Proof.
  induction path as [stem suffix text|stem entries IH|stem suffix] using Entry_nested_ind;
    intros parent.
  - rewrite visit_File. simpl. destruct (bool_decide _); simpl; [|eauto].
    destruct text as [e|source]; [done|]. destruct (ast_parse source); eauto.
  - rewrite visit_Dir, loaded_texts_Dir. destruct (bool_decide _); simpl; [|eauto].
    pose proof (recurse_dir_outcome_from entries IH (mkModuleInfo stem None None []))
      as Hrun.
    destruct (first_error ast_parse (concat (loaded_texts <$> entries))) as [e|].
    + by rewrite Hrun.
    + destruct Hrun as [module ->]. destruct (0 <? _)%nat; eauto.
  - simpl. eauto.
Qed.

(** The scan of a package whose directories can be listed goes through
    exactly when every Python file outside the excluded directories can be
    read and parses, and otherwise ends with the exception of the first one
    that fails, [read_text]'s or [ast.parse]'s, in the order the
    directories are listed; the files of [examples] and [experimental]
    directories are neither read nor parsed, and no tree is handed back
    for the rest. *)
Theorem build_fails_on_first_bad_module (stem : string) (entries : list (Entry Exc)) :
  match first_error ast_parse (concat (loaded_texts <$> entries)) with
  | Some e => build_module_tree ast_parse strip (Some (Dir stem entries)) = inl (Raised e)
  | None => ∃ root, build_module_tree ast_parse strip (Some (Dir stem entries)) = inr root
  end.
Proof.
  assert (Forall (fun path => ∀ parent : ModuleInfo Ast,
            match first_error ast_parse (loaded_texts path) with
            | Some e => visit ast_parse strip path parent = inl e
            | None => ∃ parent', visit ast_parse strip path parent = inr parent'
            end) entries)
    as Hall by (apply Forall_forall; intros path _; apply visit_outcome).
  pose proof (recurse_dir_outcome_from entries Hall (mkModuleInfo "arcade" None None []))
    as Hrun.
  simpl. destruct (first_error ast_parse (concat (loaded_texts <$> entries))) as [e|].
  - by rewrite Hrun.
  - destruct Hrun as [root ->]. eauto.
Qed.

(** *** Printing the tree *)





End DocExperimentProperties.


Lemma built_tree_names_witness :
  ∃ root,
    DocExperiment.build_module_tree DocExperiment.sample_parse id
      (Some DocExperiment.sample_package) = inr root
    ∧ ∃ stem entries,
        Some DocExperiment.sample_package = Some (DocExperiment.Dir stem entries)
        ∧ ("gl"%string ∈ (DocExperiment.children root).*1 ↔
           ∃ path, path ∈ entries ∧ DocExperiment.has_modules path
                   ∧ id (DocExperiment.entry_stem path) = "gl"%string).
Proof.
  destruct (DocExperiment.build_module_tree DocExperiment.sample_parse id
              (Some DocExperiment.sample_package)) as [e|root] eqn:Hbuild.
  { vm_compute in Hbuild. discriminate. }
  exists root. split; [reflexivity|].
  exact (built_tree_names DocExperiment.sample_parse id _ root "gl" Hbuild).
Defined.

Lemma built_tree_populated_witness :
  ∃ root,
    DocExperiment.build_module_tree DocExperiment.sample_parse id
      (Some DocExperiment.sample_package) = inr root
    ∧ DocExperiment._tree root = None
    ∧ Forall (fun kv => DocExperiment.populated kv.2) (DocExperiment.children root).
Proof.
  destruct (DocExperiment.build_module_tree DocExperiment.sample_parse id
              (Some DocExperiment.sample_package)) as [e|root] eqn:Hbuild.
  { vm_compute in Hbuild. discriminate. }
  exists root. split; [reflexivity|].
  exact (built_tree_populated DocExperiment.sample_parse id _ root Hbuild).
Defined.

